(** * The Gamma distribution class of tensorflow/contrib/distributions

    A shallow embedding of [python/ops/gamma.py] and of the part of the host
    framework the class is written against: graph construction under a stack
    of control dependencies, and the evaluation of a fetched tensor.

    The class never computes a number itself.  Every method adds operations
    to the default graph and hands back a tensor; numbers appear when a
    session evaluates that tensor.  A Python exception raised while the graph
    is being built and a failure raised while a fetched tensor is evaluated
    are therefore two different events, and the model keeps them apart:
    [M] is graph construction, [run] is evaluation. *)

From Stdlib Require Import String.
From Stdlib Require Import List Bool Arith Lia ZArith.
From Stdlib Require Import Reals Lra Epsilon.
Import ListNotations.

Set Implicit Arguments.
Set Warnings "-register-all".

(* ================================================================== *)
(** ** Element types and errors *)

(** [float] or [double], the two element types the constructor documents. *)
Inductive dtype : Set := float32 | float64.

Definition dtype_eqb (a b : dtype) : bool :=
  match a, b with
  | float32, float32 | float64, float64 => true
  | _, _ => false
  end.

(** The failures a caller can see.  [TypeMismatchError] is the [TypeError]
    announced by the [Raises:] sections of [__init__] and [log_pdf];
    [DomainError] is the failure of a [check_ops.assert_positive] op;
    [ShapeError] is the refusal to broadcast two operands. *)
Inductive exn : Set := TypeMismatchError | DomainError | ShapeError.

Inductive result (A : Type) : Type :=
| Ok (a : A)
| Raise (e : exn).
Arguments Ok {A} a.
Arguments Raise {A} e.

(** Modelled from the spec: the elementwise kernels of the host runtime
    ([math_ops] on one element).  The file under study only composes them;
    what each one computes on a number is the host's business, so they are
    the fields of an interface. *)
Class Kernels (T : Type) : Type := {
  k_zero : T;
  k_one : T;
  k_add : T -> T -> T;
  k_sub : T -> T -> T;
  k_mul : T -> T -> T;
  k_div : T -> T -> T;
  k_square : T -> T;
  k_log : T -> T;
  k_exp : T -> T;
  k_lgamma : T -> T;
  k_digamma : T -> T;
  k_igamma : T -> T -> T;
  k_less : T -> T -> bool
}.

Inductive unop : Set := Identity | Log | Exp | Lgamma | Digamma | Square.
Inductive binop : Set := Add | Sub | Mul | Div | Igamma.

(* ================================================================== *)
(** ** Tensors, and what a session computes for them *)

Section Tensors.
Context {T : Type} {K : Kernels T}.

(** Modelled from the spec: the host's tensors, which this file only passes
    around.  A tensor is the operation that produces it: its kind, its data
    inputs and the control inputs [ci] it waits for.  Values are the
    elements in row order; only ranks zero and one are modelled.  A tensor
    of one element is a scalar (the Python number [3.0] is the value
    [[3.0]]); a vector has any other number of elements.  A vector of
    exactly one element, which broadcasts as a scalar does, is not told
    apart from the scalar. *)
Inductive tensor : Type :=
| Const (ci : list tensor) (dt : dtype) (v : list T)
| Unary (ci : list tensor) (f : unop) (a : tensor)
| Binary (ci : list tensor) (f : binop) (a b : tensor)
| AssertPositive (ci : list tensor) (a : tensor).

(** Modelled from the spec: the [int32] tensors of the shape methods. *)
Inductive itensor : Type :=
| IConst (ci : list tensor) (v : list Z)
| Shape (ci : list tensor) (a : tensor).

Inductive node : Type :=
| FloatOp (t : tensor)
| IntOp (t : itensor).

Fixpoint dtype_of (t : tensor) : dtype :=
  match t with
  | Const _ dt _ => dt
  | Unary _ _ a => dtype_of a
  | Binary _ _ a _ => dtype_of a
  | AssertPositive _ a => dtype_of a
  end.

(** Modelled from the spec: broadcast of two static shapes (here: two
    lengths); one is the shape of a scalar. *)
Definition bshape (la lb : nat) : option nat :=
  if la =? 1 then Some lb
  else if lb =? 1 then Some la
  else if la =? lb then Some la
  else None.

(** Modelled from the spec: [Tensor.get_shape()], the statically inferred
    shape. *)
Fixpoint get_shape (t : tensor) : option nat :=
  match t with
  | Const _ _ v => Some (length v)
  | Unary _ _ a => get_shape a
  | Binary _ _ a b =>
      match get_shape a, get_shape b with
      | Some la, Some lb => bshape la lb
      | _, _ => None
      end
  | AssertPositive _ _ => Some 0
  end.

Definition un (f : unop) : T -> T :=
  match f with
  | Identity => fun v => v
  | Log => k_log
  | Exp => k_exp
  | Lgamma => k_lgamma
  | Digamma => k_digamma
  | Square => k_square
  end.

Definition bin (f : binop) : T -> T -> T :=
  match f with
  | Add => k_add
  | Sub => k_sub
  | Mul => k_mul
  | Div => k_div
  | Igamma => k_igamma
  end.

Fixpoint zip_with (f : T -> T -> T) (a b : list T) : list T :=
  match a, b with
  | x :: a', y :: b' => f x y :: zip_with f a' b'
  | _, _ => []
  end.

(** Modelled from the spec: a broadcasting elementwise kernel at run
    time. *)
Definition broadcast (f : T -> T -> T) (a b : list T) : result (list T) :=
  if length a =? 1 then Ok (map (f (hd k_zero a)) b)
  else if length b =? 1 then Ok (map (fun x => f x (hd k_zero b)) a)
  else if length a =? length b then Ok (zip_with f a b)
  else Raise ShapeError.

(** The element of a tensor value that takes part at batch position [i]:
    a one-element value is read at every position. *)
Definition bnth (l : list T) (i : nat) : option T :=
  match l with
  | [x] => Some x
  | _ => nth_error l i
  end.

(** Modelled from the spec: [Session.run] on one fetch, the host's
    evaluation of a tensor.  Only what the fetch depends on is executed: its
    control inputs, then its data inputs, then the kernel.  An assertion is
    enforced before the values that wait for it are used; one that nothing
    fetched depends on is never evaluated. *)
Fixpoint run (t : tensor) : result (list T) :=
  let wait :=
    fix wait (cs : list tensor) : result unit :=
      match cs with
      | [] => Ok tt
      | c :: cs' =>
          match run c with
          | Ok _ => wait cs'
          | Raise e => Raise e
          end
      end in
  match t with
  | Const ci _ v =>
      match wait ci with
      | Ok _ => Ok v
      | Raise e => Raise e
      end
  | Unary ci f a =>
      match wait ci with
      | Ok _ =>
          match run a with
          | Ok va => Ok (map (un f) va)
          | Raise e => Raise e
          end
      | Raise e => Raise e
      end
  | Binary ci f a b =>
      match wait ci with
      | Ok _ =>
          match run a with
          | Ok va =>
              match run b with
              | Ok vb => broadcast (bin f) va vb
              | Raise e => Raise e
              end
          | Raise e => Raise e
          end
      | Raise e => Raise e
      end
  | AssertPositive ci a =>
      match wait ci with
      | Ok _ =>
          match run a with
          | Ok va =>
              if forallb (k_less k_zero) va then Ok [] else Raise DomainError
          | Raise e => Raise e
          end
      | Raise e => Raise e
      end
  end.

Fixpoint wait (cs : list tensor) : result unit :=
  match cs with
  | [] => Ok tt
  | c :: cs' =>
      match run c with
      | Ok _ => wait cs'
      | Raise e => Raise e
      end
  end.

(** Modelled from the spec: the dimension sizes of a shape, as the vector a
    shape operation yields.  A tensor of one element is a scalar, whose
    shape has no dimension; a vector has one. *)
Definition dims (n : nat) : list Z :=
  if n =? 1 then [] else [Z.of_nat n].

(** Modelled from the spec: [Session.run] on an [int32] fetch.  A shape
    operation reads the shape of its input and none of its elements: where
    shape inference knows the shape the input is not evaluated, so that the
    shape is obtained whether or not the elements can be (the spec lists
    [batchShape()] without failure conditions).  Only an input of which no
    shape is inferred is evaluated for its length. *)
Definition run_int (t : itensor) : result (list Z) :=
  match t with
  | IConst ci v =>
      match wait ci with
      | Ok _ => Ok v
      | Raise e => Raise e
      end
  | Shape ci a =>
      match wait ci with
      | Ok _ =>
          match get_shape a with
          | Some n => Ok (dims n)
          | None =>
              match run a with
              | Ok va => Ok (dims (length va))
              | Raise e => Raise e
              end
          end
      | Raise e => Raise e
      end
  end.

(* ---------------------------------------------------------------- *)
(** ** Graph construction *)

(** Modelled from the spec: the host's default graph while Python code
    runs: the control dependencies in force, and every operation added so
    far (most recent first). *)
Record graph : Type := {
  control_stack : list tensor;
  created : list node
}.

Definition new_graph : graph := {| control_stack := []; created := [] |}.

(** Python code that builds graph: it may add operations and may raise. *)
Definition M (A : Type) : Type := graph -> result (A * graph).

Definition ret {A} (a : A) : M A := fun g => Ok (a, g).

Definition bind {A B} (m : M A) (k : A -> M B) : M B :=
  fun g =>
    match m g with
    | Ok (a, g') => k a g'
    | Raise e => Raise e
    end.

Definition raise {A} (e : exn) : M A := fun _ => Raise e.

(** Modelled from the spec: [Graph.create_op].  The new operation takes
    the control dependencies in force as its control inputs and is recorded
    in the graph. *)
Definition create_op (mk : list tensor -> tensor) : M tensor :=
  fun g =>
    let t := mk (control_stack g) in
    Ok (t, {| control_stack := control_stack g;
              created := FloatOp t :: created g |}).

Definition create_int_op (mk : list tensor -> itensor) : M itensor :=
  fun g =>
    let t := mk (control_stack g) in
    Ok (t, {| control_stack := control_stack g;
              created := IntOp t :: created g |}).

(** What the caller observes of a method that returns a tensor which is
    then fetched: the exception of the call, or else the outcome of the
    evaluation. *)
Definition outcome (m : M tensor) (g : graph) : result (list T) :=
  match m g with
  | Ok (t, _) => run t
  | Raise e => Raise e
  end.

End Tensors.

Arguments tensor T : clear implicits.
Arguments itensor T : clear implicits.
Arguments node T : clear implicits.
Arguments graph T : clear implicits.
Arguments M T A : clear implicits.

Notation "x <- c ;; k" := (bind c (fun x => k))
  (at level 61, c at next level, right associativity).
Notation "' p <- c ;; k" := (bind c (fun x => match x with p => k end))
  (at level 61, p pattern, c at next level, right associativity).

(* ================================================================== *)
(** ** The framework modules [gamma.py] imports

    These modules are not part of the file under study.  Each definition
    follows the capability the spec lists for the host runtime (broadcasting
    elementwise arithmetic, special functions, an assertion that is attached
    to a value and enforced before that value is used, shape inference) and
    the framework's documented contract for the function. *)

(** What a caller may pass where a tensor is expected: Python numbers (a
    float, written as the list of its one element, or a list of floats), or
    a tensor that is already in the graph. *)
Inductive arg (T : Type) : Type :=
| PyFloats (v : list T)
| Tensor (t : tensor T).
Arguments PyFloats {T} v.
Arguments Tensor {T} t.

Module ops.
Section Ops.
Context {T : Type} {K : Kernels T}.

(** Modelled from the spec: [ops.convert_to_tensor(value, dtype=None)].
    Python numbers become a constant of the requested type ([float32] when
    none is requested); a tensor is returned as it is, unless another type
    was requested. *)
Definition convert_to_tensor (value : arg T) (dt : option dtype)
  : M T (tensor T) :=
  match value with
  | PyFloats v =>
      create_op
        (fun ci => Const ci (match dt with Some d => d | None => float32 end) v)
  | Tensor t =>
      match dt with
      | Some d =>
          if dtype_eqb d (dtype_of t) then ret t else raise TypeMismatchError
      | None => ret t
      end
  end.

(** Modelled from the spec: [with ops.control_dependencies(deps): body].
    The dependencies are in force for the operations constructed within the
    block, and only for those: an assertion is attached to the values
    created by [body]. *)
Definition control_dependencies {A} (deps : list (tensor T)) (body : M T A)
  : M T A :=
  fun g =>
    match body {| control_stack := control_stack g ++ deps;
                  created := created g |} with
    | Ok (a, g') =>
        Ok (a, {| control_stack := control_stack g; created := created g' |})
    | Raise e => Raise e
    end.

(** Modelled from the spec: [with ops.op_scope(values, name): body] and
    [with ops.name_scope(name): body] only prefix the names of the
    operations created by [body]; they carry no semantic weight. *)
Definition op_scope {A} (name : string) (body : M T A) : M T A := body.
Definition name_scope {A} (name : string) (body : M T A) : M T A := body.

End Ops.
End ops.

Module math_ops.
Section MathOps.
Context {T : Type} {K : Kernels T}.

(** Modelled from the spec: an elementwise operation on one tensor. *)
Definition unary (f : unop) (a : tensor T) : M T (tensor T) :=
  create_op (fun ci => Unary ci f a).

(** Modelled from the spec: a broadcasting elementwise operation on two
    tensors.  Creating it fails when the element types differ or when the
    static shapes are known not to broadcast. *)
Definition binary (f : binop) (a b : tensor T) : M T (tensor T) :=
  if dtype_eqb (dtype_of a) (dtype_of b) then
    match get_shape a, get_shape b with
    | Some la, Some lb =>
        match bshape la lb with
        | Some _ => create_op (fun ci => Binary ci f a b)
        | None => raise ShapeError
        end
    | _, _ => create_op (fun ci => Binary ci f a b)
    end
  else raise TypeMismatchError.

(** Modelled from the spec: the overloaded operators of [Tensor].  [a + y],
    [a - y], [a * y] and [a / y] convert [y] to the element type of [a]
    first ([from __future__ import division] makes [/] the true
    division). *)
Definition operator (f : binop) (a : tensor T) (y : arg T)
  : M T (tensor T) :=
  y' <- ops.convert_to_tensor y (Some (dtype_of a)) ;;
  binary f a y'.

(** Modelled from the spec: the reflected operators, [x - b] with [x] a
    Python number. *)
Definition roperator (f : binop) (x : arg T) (b : tensor T)
  : M T (tensor T) :=
  x' <- ops.convert_to_tensor x (Some (dtype_of b)) ;;
  binary f x' b.

(** Modelled from the spec: the functions of [math_ops] the class calls. *)
Definition log := unary Log.
Definition exp := unary Exp.
Definition lgamma := unary Lgamma.
Definition digamma := unary Digamma.
Definition square := unary Square.
Definition igamma := binary Igamma.

End MathOps.
End math_ops.

Module array_ops.
Section ArrayOps.
Context {T : Type} {K : Kernels T}.

(** Modelled from the spec: [array_ops.identity]. *)
Definition identity (a : tensor T) : M T (tensor T) :=
  math_ops.unary Identity a.

(** Modelled from the spec: [array_ops.shape], the operation whose value
    is the vector of dimension sizes of its input (see [run_int]). *)
Definition shape (a : tensor T) : M T (itensor T) :=
  create_int_op (fun ci => Shape ci a).

End ArrayOps.
End array_ops.

Module constant_op.
Section ConstantOp.
Context {T : Type} {K : Kernels T}.

(** Modelled from the spec: [constant_op.constant] on a Python integer, a
    scalar. *)
Definition constant (v : Z) : M T (itensor T) :=
  create_int_op (fun ci => IConst ci [v]).

End ConstantOp.
End constant_op.

Module check_ops.
Section CheckOps.
Context {T : Type} {K : Kernels T}.

(** Modelled from the spec: [check_ops.assert_positive(x)], the
    precondition assertion.  It returns an operation; evaluating it fails
    unless every element of [x] is greater than zero.  Creating it
    evaluates nothing. *)
Definition assert_positive (x : tensor T) : M T (tensor T) :=
  create_op (fun ci => AssertPositive ci x).

End CheckOps.
End check_ops.

Module control_flow_ops.
Section ControlFlowOps.
Context {T : Type} {K : Kernels T}.

(** Modelled from the spec: [with_dependencies(dependencies,
    output_tensor)], the attachment of assertions to a value: an identity of
    [output_tensor] created under the dependencies. *)
Definition with_dependencies (dependencies : list (tensor T))
    (output_tensor : tensor T) : M T (tensor T) :=
  ops.control_dependencies dependencies (array_ops.identity output_tensor).

End ControlFlowOps.
End control_flow_ops.

Module contrib_tensor_util.
Section TensorUtil.
Context {T : Type} {K : Kernels T}.

(** Modelled from the spec: the loop of [assert_same_float_dtype] over its
    tensors. *)
Fixpoint _assert_same_base_type (items : list (tensor T))
    (expected_type : option dtype) : M T (option dtype) :=
  match items with
  | [] => ret expected_type
  | item :: rest =>
      match expected_type with
      | None => _assert_same_base_type rest (Some (dtype_of item))
      | Some d =>
          if dtype_eqb d (dtype_of item)
          then _assert_same_base_type rest expected_type
          else raise TypeMismatchError
      end
  end.

(** Modelled from the spec: [assert_same_float_dtype(tensors, dtype)].
    Every tensor has the expected element type, which is [dtype] when given
    and the type of the first tensor otherwise; the common type is
    returned, and a disagreement raises [TypeMismatchError]. *)
Definition assert_same_float_dtype (tensors : list (tensor T))
    (dt : option dtype) : M T dtype :=
  d <- _assert_same_base_type tensors dt ;;
  ret (match d with Some d' => d' | None => float32 end).

End TensorUtil.
End contrib_tensor_util.

(* ================================================================== *)
(** ** [class Gamma(ContinuousDistribution)] *)

Module gamma.
Section GammaClass.
Context {T : Type} {K : Kernels T}.

Record Gamma : Type := {
  _alpha : tensor T;
  _beta : tensor T;
  _name : string;
  _mean : tensor T;
  _batch_shape : option nat;
  _variance : tensor T;
  _event_shape : list nat
}.

Definition __init__ (alpha beta : arg T) (name : string) : M T Gamma :=
  '(alpha, beta, name') <-
    ops.op_scope name (
      alpha <- ops.convert_to_tensor alpha None ;;
      beta <- ops.convert_to_tensor beta None ;;
      _ <- contrib_tensor_util.assert_same_float_dtype [alpha; beta] None ;;
      pa <- check_ops.assert_positive alpha ;;
      pb <- check_ops.assert_positive beta ;;
      ops.control_dependencies [pa; pb] (ret (alpha, beta, name))) ;;
  mean <- ops.op_scope name (math_ops.operator Div alpha (Tensor beta)) ;;
  variance <-
    ops.op_scope name (
      sq <- math_ops.square beta ;;
      math_ops.operator Div alpha (Tensor sq)) ;;
  ret {| _alpha := alpha;
         _beta := beta;
         _name := name';
         _mean := mean;
         _batch_shape := get_shape mean;
         _variance := variance;
         _event_shape := [] |}.

Definition name (self : Gamma) : string := _name self.
Definition dtype (self : Gamma) : dtype := dtype_of (_alpha self).
Definition alpha (self : Gamma) : tensor T := _alpha self.
Definition beta (self : Gamma) : tensor T := _beta self.

Definition batch_shape (self : Gamma) : M T (itensor T) :=
  ops.name_scope (name self) (array_ops.shape (_mean self)).

Definition get_batch_shape (self : Gamma) : option nat := _batch_shape self.

Definition event_shape (self : Gamma) : M T (itensor T) :=
  ops.name_scope (name self) (constant_op.constant 1%Z).

Definition get_event_shape (self : Gamma) : list nat := _event_shape self.

Definition mean (self : Gamma) : tensor T := _mean self.
Definition variance (self : Gamma) : tensor T := _variance self.

Definition log_pdf (self : Gamma) (x : arg T) : M T (tensor T) :=
  ops.op_scope (name self) (
    ops.name_scope "log_pdf" (
      let alpha := _alpha self in
      let beta := _beta self in
      x <- ops.convert_to_tensor x None ;;
      p <- check_ops.assert_positive x ;;
      x <- control_flow_ops.with_dependencies [p] x ;;
      _ <- contrib_tensor_util.assert_same_float_dtype [x]
             (Some (dtype self)) ;;
      lb <- math_ops.log beta ;;
      t1 <- math_ops.operator Mul alpha (Tensor lb) ;;
      am1 <- math_ops.operator Sub alpha (PyFloats [k_one]) ;;
      lx <- math_ops.log x ;;
      t2 <- math_ops.operator Mul am1 (Tensor lx) ;;
      s <- math_ops.operator Add t1 (Tensor t2) ;;
      bx <- math_ops.operator Mul beta (Tensor x) ;;
      d <- math_ops.operator Sub s (Tensor bx) ;;
      lg <- math_ops.lgamma (_alpha self) ;;
      math_ops.operator Sub d (Tensor lg))).

Definition pdf (self : Gamma) (x : arg T) : M T (tensor T) :=
  ops.name_scope "pdf" (
    l <- log_pdf self x ;;
    math_ops.exp l).

Definition log_cdf (self : Gamma) (x : arg T) : M T (tensor T) :=
  ops.op_scope (name self) (
    ops.name_scope "log_cdf" (
      x <- ops.convert_to_tensor x None ;;
      p <- check_ops.assert_positive x ;;
      x <- control_flow_ops.with_dependencies [p] x ;;
      _ <- contrib_tensor_util.assert_same_float_dtype [x]
             (Some (dtype self)) ;;
      bx <- math_ops.operator Mul (_beta self) (Tensor x) ;;
      ig <- math_ops.igamma (_alpha self) bx ;;
      math_ops.log ig)).

Definition cdf (self : Gamma) (x : arg T) : M T (tensor T) :=
  ops.op_scope (name self) (
    ops.name_scope "cdf" (
      bx <- math_ops.operator Mul (_beta self) x ;;
      math_ops.igamma (_alpha self) bx)).

Definition entropy (self : Gamma) : M T (tensor T) :=
  ops.op_scope (name self) (
    ops.name_scope "entropy" (
      let alpha := _alpha self in
      let beta := _beta self in
      lb <- math_ops.log beta ;;
      d <- math_ops.operator Sub alpha (Tensor lb) ;;
      lg <- math_ops.lgamma alpha ;;
      s <- math_ops.operator Add d (Tensor lg) ;;
      oma <- math_ops.roperator Sub (PyFloats [k_one]) alpha ;;
      dg <- math_ops.digamma alpha ;;
      p <- math_ops.operator Mul oma (Tensor dg) ;;
      math_ops.operator Add s (Tensor p))).

Definition is_reparameterized (self : Gamma) : bool := false.

(** A distribution object is one the constructor returned, called outside
    any control-dependency block of the caller. *)
Definition constructed (self : Gamma) : Prop :=
  exists alpha beta name g g',
    control_stack g = [] /\ __init__ alpha beta name g = Ok (self, g').

End GammaClass.
End gamma.

(* ================================================================== *)
(** ** Reading an argument, and the shape a broadcast produces *)

Section Arguments.
Context {T : Type} {K : Kernels T}.

(** The elements an argument stands for. *)
Definition arg_value (x : arg T) : result (list T) :=
  match x with
  | PyFloats v => Ok v
  | Tensor t => run t
  end.

(** The element type [ops.convert_to_tensor] gives an argument when no
    type is requested. *)
Definition arg_dtype (x : arg T) : dtype :=
  match x with
  | PyFloats _ => float32
  | Tensor t => dtype_of t
  end.

(** Whether an argument can be converted to element type [d]: Python
    numbers always can, a tensor only when it has that type already. *)
Definition arg_fits (x : arg T) (d : dtype) : bool :=
  match x with
  | PyFloats _ => true
  | Tensor t => dtype_eqb d (dtype_of t)
  end.

(** The tensor an argument is converted to outside any control-dependency
    block, [d] being the element type given to Python numbers. *)
Definition arg_tensor (d : dtype) (x : arg T) : tensor T :=
  match x with
  | PyFloats v => Const [] d v
  | Tensor t => t
  end.

(** The broadcast shape of two shapes that are compatible. *)
Definition bmax (la lb : nat) : nat := if la =? 1 then lb else la.

(** The graph after one more operation was added to it. *)
Definition add_op (g : graph T) (t : tensor T) : graph T :=
  {| control_stack := control_stack g; created := FloatOp t :: created g |}.

(** Graph-building code is regular when it looks at the graph only through
    the control dependencies in force, and leaves them as it found them:
    from two graphs with the same control stack it raises the same exception
    or returns the same value. *)
Definition regular {A : Type} (m : M T A) : Prop :=
  forall g1 g2,
    control_stack g1 = control_stack g2 ->
    match m g1, m g2 with
    | Ok (a1, g1'), Ok (a2, g2') =>
        a1 = a2 /\
        control_stack g1' = control_stack g1 /\
        control_stack g2' = control_stack g2
    | Raise e1, Raise e2 => e1 = e2
    | _, _ => False
    end.

(** What the caller observes of a method that returns an [int32] tensor. *)
Definition outcome_int (m : M T (itensor T)) (g : graph T)
  : result (list Z) :=
  match m g with
  | Ok (t, _) => run_int t
  | Raise e => Raise e
  end.

End Arguments.

(* ================================================================== *)
(** ** The kernels over the real numbers

    The host's logarithm, exponential and special functions are not part of
    the file under study.  Over the reals the elementary ones are the
    library's; the special functions are given by their classical
    definitions: Euler's limit for the Gamma function, the derivative of its
    logarithm for digamma, and for the regularized incomplete gamma function
    the integral of [t^(a-1) exp (- t)] from 0 to [x] divided by the integral
    over the whole half line. *)

Module RealKernels.

(** Modelled from the spec: [math_ops.less] on two real numbers. *)
Definition Rless (x y : R) : bool :=
  if Rlt_dec x y then true else false.

(** [rising z n = z (z+1) ... (z+n)] *)
Fixpoint rising (z : R) (n : nat) : R :=
  match n with
  | O => z
  | S m => (rising z m * (z + INR (S m)))%R
  end.

(** Modelled from the spec: the Gamma function, by Euler's limit
    [Gamma z = lim n! n^z / (z (z+1) ... (z+n))]. *)
Definition Gamma_seq (z : R) (n : nat) : R :=
  (INR (fact n) * Rpower (INR n) z / rising z n)%R.

Definition Gamma_fn (z : R) : R :=
  epsilon (inhabits 0%R) (fun l => Un_cv (Gamma_seq z) l).

(** Modelled from the spec: log-gamma, [math_ops.lgamma] on a real. *)
Definition Rlgamma (z : R) : R := ln (Gamma_fn z).

(** Modelled from the spec: digamma, the derivative of log-gamma. *)
Definition Rdigamma (z : R) : R :=
  epsilon (inhabits 0%R) (fun l => derivable_pt_lim Rlgamma z l).

(** The integrand of the gamma integrals, [t^(a-1) exp (- t)] at [t > 0]. *)
Definition gamma_integrand (a t : R) : R :=
  (Rpower t (a - 1) * exp (- t))%R.

(** Modelled from the spec: [G] is the lower incomplete gamma function of
    shape [a], [G x = integral of t^(a-1) exp (- t) for t from 0 to x]: it
    is zero up to 0, continuous there (the integral is improper at 0 when
    [a < 1]), and at every [x > 0] its derivative is the integrand.  These
    conditions determine [G] ([is_lower_gamma_unique]), and for [a > 0] a
    function satisfies them ([lower_gamma_exists]). *)
Definition is_lower_gamma (a : R) (G : R -> R) : Prop :=
  (forall x, x <= 0 -> G x = 0)%R /\
  continuity_pt G 0 /\
  (forall x, 0 < x -> derivable_pt_lim G x (gamma_integrand a x))%R.

Definition lower_gamma (a : R) : R -> R :=
  epsilon (inhabits (fun _ : R => 0%R)) (is_lower_gamma a).

(** [f x] tends to [l] as [x] grows without bound. *)
Definition limit_at_infinity (f : R -> R) (l : R) : Prop :=
  forall eps, (0 < eps)%R ->
    exists M, forall x, (M <= x)%R -> (Rabs (f x - l) < eps)%R.

(** The complete integral, [integral of t^(a-1) exp (- t) for t from 0 to
    infinity]: the integral form of the Gamma function. *)
Definition Gamma_integral (a : R) : R :=
  epsilon (inhabits 0%R) (limit_at_infinity (lower_gamma a)).

(** Modelled from the spec: the regularized lower incomplete gamma function,
    [math_ops.igamma] on two reals, [P(a, x) = gamma(a, x) / Gamma(a)] for
    [a > 0] and [x >= 0]; in particular [P(a, 0) = 0].  Where the host has
    no number to give (not-a-number, at [x < 0] or [a <= 0]) no real number
    stands for its result: the definition is then 0 at [x < 0] and left
    unspecified at [a <= 0], and nothing is proved of those values. *)
Definition Rigamma (a x : R) : R :=
  (lower_gamma a x / Gamma_integral a)%R.

(** The integrand one degree up, [t^a exp (- t)], continued by 0 to the
    left of 0: for [a > 0] it is continuous on the whole line.  It serves
    to construct [lower_gamma a], by
    [gamma(a, x) = (x^a exp (- x) + gamma(a + 1, x)) / a]. *)
Definition raised_integrand (a t : R) : R :=
  if Rle_dec t 0 then 0%R else (Rpower t a * exp (- t))%R.

(** Modelled from the spec: the kernels on real numbers, with the special
    functions left open, and with the classical ones. *)
Definition with_special (lg dg : R -> R) (ig : R -> R -> R) : Kernels R :=
  {| k_zero := 0%R;
     k_one := 1%R;
     k_add := Rplus;
     k_sub := Rminus;
     k_mul := Rmult;
     k_div := Rdiv;
     k_square := Rsqr;
     k_log := ln;
     k_exp := exp;
     k_lgamma := lg;
     k_digamma := dg;
     k_igamma := ig;
     k_less := Rless |}.

Definition real : Kernels R := with_special Rlgamma Rdigamma Rigamma.

End RealKernels.

(* ================================================================== *)
(** * Properties *)

Unset Implicit Arguments.

(** ** Shapes and broadcasting *)

Ltac bshape_cases :=
  unfold bshape, bmax in *;
  repeat match goal with
    | H : context [Nat.eqb ?a ?b] |- _ => destruct (Nat.eqb_spec a b)
    | |- context [Nat.eqb ?a ?b] => destruct (Nat.eqb_spec a b)
    end;
  repeat match goal with
    | H : Some _ = Some _ |- _ => injection H as H
    | H : None = Some _ |- _ => discriminate H
    | H : Some _ = None |- _ => discriminate H
    end;
  try congruence; try (f_equal; lia); try lia.

Lemma dtype_eqb_refl (d : dtype) : dtype_eqb d d = true.
Proof. destruct d; reflexivity. Qed.

Lemma dtype_eqb_eq (a b : dtype) : dtype_eqb a b = true <-> a = b.
Proof. destruct a, b; simpl; split; congruence. Qed.

Lemma dtype_eqb_neq (a b : dtype) : dtype_eqb a b = false <-> a <> b.
Proof. destruct a, b; simpl; split; congruence. Qed.

Section Broadcasting.
Context {T : Type} {K : Kernels T}.

Lemma zip_with_length (f : T -> T -> T) (a b : list T) :
  length a = length b -> length (zip_with f a b) = length a.
Proof.
  revert b; induction a as [|x a IH]; intros [|y b] E; simpl in *;
    try discriminate; auto.
Qed.

Lemma zip_with_nth (f : T -> T -> T) (a b : list T) (i : nat) (x y : T) :
  nth_error a i = Some x -> nth_error b i = Some y ->
  nth_error (zip_with f a b) i = Some (f x y).
Proof.
  revert b i; induction a as [|x0 a IH]; intros [|y0 b] [|i] Ha Hb;
    simpl in *; try discriminate.
  - congruence.
  - eauto.
Qed.

Lemma length_one (l : list T) :
  length l = 1 -> exists x, l = [x].
Proof.
  destruct l as [|x [|y l]]; simpl; try discriminate; eauto.
Qed.

Lemma bnth_long (l : list T) (i : nat) :
  length l <> 1 -> bnth l i = nth_error l i.
Proof.
  destruct l as [|x [|y l]]; simpl; intros H; try reflexivity.
  now destruct H.
Qed.

Lemma bnth_map (g : T -> T) (l : list T) (i : nat) (x : T) :
  bnth l i = Some x -> bnth (map g l) i = Some (g x).
Proof.
  destruct (Nat.eq_dec (length l) 1) as [E|E].
  - destruct (length_one _ E) as [x0 ->]. simpl. congruence.
  - rewrite !bnth_long by (rewrite ?length_map; exact E).
    intros H. now rewrite nth_error_map, H.
Qed.

(** Compatible shapes broadcast, to the broadcast shape. *)
Lemma broadcast_ok (f : T -> T -> T) (a b : list T) (n : nat) :
  bshape (length a) (length b) = Some n ->
  exists r, broadcast f a b = Ok r /\ length r = n.
Proof.
  unfold broadcast, bshape.
  destruct (Nat.eqb_spec (length a) 1).
  - intros [= <-]. eexists; split; [reflexivity | apply length_map].
  - destruct (Nat.eqb_spec (length b) 1).
    + intros [= <-]. eexists; split; [reflexivity | apply length_map].
    + destruct (Nat.eqb_spec (length a) (length b)) as [E|E];
        [|discriminate].
      intros [= <-]. eexists; split; [reflexivity|].
      now apply zip_with_length.
Qed.

Lemma broadcast_fails (f : T -> T -> T) (a b : list T) :
  bshape (length a) (length b) = None ->
  broadcast f a b = Raise ShapeError.
Proof.
  unfold broadcast, bshape.
  repeat match goal with
    | |- context [Nat.eqb ?x ?y] => destruct (Nat.eqb_spec x y)
    end; congruence.
Qed.

Lemma broadcast_length (f : T -> T -> T) (a b r : list T) :
  broadcast f a b = Ok r ->
  bshape (length a) (length b) = Some (length r).
Proof.
  intros E. destruct (bshape (length a) (length b)) as [n|] eqn:B.
  - destruct (broadcast_ok f a b n B) as (r' & E' & L). congruence.
  - rewrite (broadcast_fails f a b B) in E. discriminate.
Qed.

(** A broadcast combines, at every batch position, the elements its two
    operands contribute there. *)
Lemma broadcast_bnth (f : T -> T -> T) (a b r : list T) :
  broadcast f a b = Ok r ->
  forall i x y, bnth a i = Some x -> bnth b i = Some y ->
                bnth r i = Some (f x y).
Proof.
  unfold broadcast. intros E i x y Ha Hb.
  destruct (Nat.eqb_spec (length a) 1) as [A1|A1].
  - destruct (length_one _ A1) as [x0 ->]. simpl in *.
    injection E as <-. injection Ha as ->. now apply bnth_map.
  - destruct (Nat.eqb_spec (length b) 1) as [B1|B1].
    + destruct (length_one _ B1) as [y0 ->]. simpl in *.
      injection E as <-. injection Hb as ->.
      now apply (bnth_map (fun x => f x y)).
    + destruct (Nat.eqb_spec (length a) (length b)) as [AB|AB];
        [|discriminate].
      injection E as <-.
      rewrite bnth_long in Ha, Hb by assumption.
      rewrite bnth_long by (rewrite zip_with_length; assumption).
      now apply zip_with_nth.
Qed.

End Broadcasting.

(** ** Evaluation *)

Section Evaluation.
Context {T : Type} {K : Kernels T}.

Lemma run_Const (ci : list (tensor T)) (dt : dtype) (v : list T) :
  run (Const ci dt v) =
  match wait ci with Ok _ => Ok v | Raise e => Raise e end.
Proof. reflexivity. Qed.

Lemma run_Unary (ci : list (tensor T)) (f : unop) (a : tensor T) :
  run (Unary ci f a) =
  match wait ci with
  | Ok _ => match run a with
            | Ok va => Ok (map (un f) va)
            | Raise e => Raise e
            end
  | Raise e => Raise e
  end.
Proof. reflexivity. Qed.

Lemma run_Binary (ci : list (tensor T)) (f : binop) (a b : tensor T) :
  run (Binary ci f a b) =
  match wait ci with
  | Ok _ => match run a with
            | Ok va => match run b with
                       | Ok vb => broadcast (bin f) va vb
                       | Raise e => Raise e
                       end
            | Raise e => Raise e
            end
  | Raise e => Raise e
  end.
Proof. reflexivity. Qed.

Lemma run_AssertPositive (ci : list (tensor T)) (a : tensor T) :
  run (AssertPositive ci a) =
  match wait ci with
  | Ok _ => match run a with
            | Ok va => if forallb (k_less k_zero) va
                       then Ok [] else Raise DomainError
            | Raise e => Raise e
            end
  | Raise e => Raise e
  end.
Proof. reflexivity. Qed.

(** The static shape agrees with the value a session computes. *)
Lemma run_shape (t : tensor T) :
  forall v, run t = Ok v -> get_shape t = Some (length v).
Proof.
  induction t as [ci dt v0 | ci f a IH | ci f a IHa b IHb | ci a IH];
    intros v.
  - rewrite run_Const. destruct (wait ci); [|discriminate].
    intros [= <-]. reflexivity.
  - rewrite run_Unary. destruct (wait ci); [|discriminate].
    destruct (run a) as [va|]; [|discriminate].
    intros [= <-]. simpl. rewrite (IH va eq_refl). now rewrite length_map.
  - rewrite run_Binary. destruct (wait ci); [|discriminate].
    destruct (run a) as [va|]; [|discriminate].
    destruct (run b) as [vb|]; [|discriminate].
    intros E. simpl. rewrite (IHa va eq_refl), (IHb vb eq_refl).
    now apply broadcast_length in E.
  - rewrite run_AssertPositive. destruct (wait ci); [|discriminate].
    destruct (run a) as [va|]; [|discriminate].
    destruct (forallb _ va); [|discriminate].
    intros [= <-]. reflexivity.
Qed.

End Evaluation.

(** ** Graph construction *)

Section Building.
Context {T : Type} {K : Kernels T}.

Lemma bind_ok {A B} (m : M T A) (k : A -> M T B) (g g' : graph T) (a : A) :
  m g = Ok (a, g') -> bind m k g = k a g'.
Proof. unfold bind. now intros ->. Qed.

Lemma bshape_one_r (n : nat) : bshape n 1 = Some n.
Proof. bshape_cases. Qed.

Lemma convert_tensor (x : arg T) (g : graph T) :
  control_stack g = [] ->
  exists g',
    ops.convert_to_tensor x None g = Ok (arg_tensor float32 x, g') /\
    control_stack g' = [].
Proof.
  intros H. destruct x as [v|t]; simpl.
  - unfold create_op. rewrite H. eexists. split; reflexivity.
  - exists g. split; auto.
Qed.

Lemma convert_created (x : arg T) (d : option dtype) (g : graph T)
    (t : tensor T) (g' : graph T) :
  ops.convert_to_tensor x d g = Ok (t, g') ->
  exists l, created g' = l ++ created g.
Proof.
  destruct x as [v|t0]; simpl.
  - unfold create_op. intros [= _ <-]. simpl. now eexists [_].
  - destruct d as [d|].
    + destruct (dtype_eqb d (dtype_of t0)); [|discriminate].
      intros [= _ <-]. now exists [].
    + intros [= _ <-]. now exists [].
Qed.

Lemma arg_tensor_run (d : dtype) (x : arg T) :
  run (arg_tensor d x) = arg_value x.
Proof. destruct x; reflexivity. Qed.

Lemma arg_tensor_dtype (x : arg T) :
  dtype_of (arg_tensor float32 x) = arg_dtype x.
Proof. destruct x; reflexivity. Qed.

Lemma convert_to_tensor_as (x : arg T) (d : dtype) (g : graph T) :
  control_stack g = [] ->
  arg_fits x d = true ->
  exists g',
    ops.convert_to_tensor x (Some d) g = Ok (arg_tensor d x, g') /\
    control_stack g' = [] /\
    dtype_of (arg_tensor d x) = d.
Proof.
  intros H F. destruct x as [v|t]; simpl in *.
  - unfold create_op. rewrite H. eexists. repeat split; reflexivity.
  - rewrite F. apply dtype_eqb_eq in F. exists g. repeat split; auto.
Qed.

Lemma unary_spec (f : unop) (a : tensor T) (g : graph T) :
  control_stack g = [] ->
  exists g',
    math_ops.unary f a g = Ok (Unary [] f a, g') /\
    control_stack g' = [] /\
    created g' = FloatOp (Unary [] f a) :: created g.
Proof.
  intros H. unfold math_ops.unary, create_op. rewrite H.
  eexists. repeat split; reflexivity.
Qed.

Lemma run_unary (f : unop) (a : tensor T) (va : list T) :
  run a = Ok va -> run (Unary [] f a) = Ok (map (un f) va).
Proof. intros H. rewrite run_Unary. simpl. now rewrite H. Qed.

Lemma assert_positive_spec (x : tensor T) (g : graph T) :
  control_stack g = [] ->
  exists g',
    check_ops.assert_positive x g = Ok (AssertPositive [] x, g') /\
    control_stack g' = [] /\
    created g' = FloatOp (AssertPositive [] x) :: created g.
Proof.
  intros H. unfold check_ops.assert_positive, create_op. rewrite H.
  eexists. repeat split; reflexivity.
Qed.

Lemma with_dependencies_spec (deps : list (tensor T)) (x : tensor T)
    (g : graph T) :
  control_stack g = [] ->
  exists g',
    control_flow_ops.with_dependencies deps x g
      = Ok (Unary deps Identity x, g') /\
    control_stack g' = [].
Proof.
  intros H.
  unfold control_flow_ops.with_dependencies, ops.control_dependencies,
    array_ops.identity, math_ops.unary, create_op.
  simpl. rewrite H. simpl. eexists. split; reflexivity.
Qed.

(** Creating a binary operation on tensors of one element type whose static
    shapes broadcast succeeds. *)
Lemma binary_build (f : binop) (a b : tensor T) (la lb n : nat)
    (g : graph T) :
  control_stack g = [] ->
  dtype_of a = dtype_of b ->
  get_shape a = Some la ->
  get_shape b = Some lb ->
  bshape la lb = Some n ->
  exists g',
    math_ops.binary f a b g = Ok (Binary [] f a b, g') /\
    control_stack g' = [] /\
    created g' = FloatOp (Binary [] f a b) :: created g /\
    get_shape (Binary [] f a b) = Some n.
Proof.
  intros H D Sa Sb B.
  unfold math_ops.binary.
  rewrite D, dtype_eqb_refl, Sa, Sb, B.
  unfold create_op. rewrite H.
  eexists. repeat split; try reflexivity.
  simpl. now rewrite Sa, Sb.
Qed.

(** A binary operation without control inputs evaluates to the broadcast of
    its kernel over the values of its operands. *)
Lemma run_binary (f : binop) (a b : tensor T) (va vb : list T) (n : nat) :
  run a = Ok va ->
  run b = Ok vb ->
  bshape (length va) (length vb) = Some n ->
  exists r,
    run (Binary [] f a b) = Ok r /\
    length r = n /\
    (forall i x y, bnth va i = Some x -> bnth vb i = Some y ->
                   bnth r i = Some (bin f x y)).
Proof.
  intros Ra Rb B.
  destruct (broadcast_ok (bin f) va vb n B) as (r & E & L).
  exists r. repeat split.
  - rewrite run_Binary. simpl. now rewrite Ra, Rb.
  - assumption.
  - intros i x y. now apply broadcast_bnth.
Qed.

Lemma run_binary_raise_l (f : binop) (a b : tensor T) (e : exn) :
  run a = Raise e -> run (Binary [] f a b) = Raise e.
Proof. intros H. rewrite run_Binary. simpl. now rewrite H. Qed.

Lemma run_binary_raise_r (f : binop) (a b : tensor T) (va : list T)
    (e : exn) :
  run a = Ok va -> run b = Raise e -> run (Binary [] f a b) = Raise e.
Proof. intros Ha H. rewrite run_Binary. simpl. now rewrite Ha, H. Qed.

Lemma run_unary_raise (f : unop) (a : tensor T) (e : exn) :
  run a = Raise e -> run (Unary [] f a) = Raise e.
Proof. intros H. rewrite run_Unary. simpl. now rewrite H. Qed.

(** The value guarded by a positivity assertion: the assertion runs first,
    and the value is passed on only when every element is positive. *)
Lemma run_guarded (x : tensor T) (vx : list T) :
  run x = Ok vx ->
  run (Unary [AssertPositive [] x] Identity x) =
  if forallb (k_less k_zero) vx then Ok vx else Raise DomainError.
Proof.
  intros H. rewrite run_Unary.
  change (wait [AssertPositive [] x])
    with (match run (AssertPositive [] x) with
          | Ok _ => Ok tt
          | Raise e => Raise e
          end).
  rewrite run_AssertPositive. change (wait []) with (Ok tt). rewrite H.
  destruct (forallb (k_less k_zero) vx); [|reflexivity].
  change (un Identity) with (fun v : T => v). now rewrite map_id.
Qed.

Lemma operator_tensor (f : binop) (a b : tensor T) (g : graph T) :
  math_ops.operator f a (Tensor b) g = math_ops.binary f a b g.
Proof.
  unfold math_ops.operator, math_ops.binary, bind. simpl.
  destruct (dtype_eqb (dtype_of a) (dtype_of b)) eqn:D; simpl.
  - now rewrite D.
  - reflexivity.
Qed.

End Building.

(** ** The constructor *)

Section Constructor.
Context {T : Type} {K : Kernels T}.

Lemma bshape_bmax (la lb n : nat) :
  bshape la lb = Some n -> n = bmax la lb.
Proof. intros H. bshape_cases. Qed.

Lemma binary_inv (f : binop) (a b t : tensor T) (g g' : graph T) :
  control_stack g = [] ->
  math_ops.binary f a b g = Ok (t, g') ->
  t = Binary [] f a b /\
  control_stack g' = [] /\
  created g' = FloatOp t :: created g /\
  dtype_of a = dtype_of b /\
  (forall la lb, get_shape a = Some la -> get_shape b = Some lb ->
                 bshape la lb = Some (bmax la lb)).
Proof.
  intros H. unfold math_ops.binary.
  destruct (dtype_eqb (dtype_of a) (dtype_of b)) eqn:D; [|discriminate].
  apply dtype_eqb_eq in D.
  assert (C : create_op (fun ci => Binary ci f a b) g = Ok (t, g') ->
              t = Binary [] f a b /\ control_stack g' = [] /\
              created g' = FloatOp t :: created g).
  { unfold create_op. rewrite H. intros [= <- <-]. repeat split. }
  destruct (get_shape a) as [la|] eqn:Sa, (get_shape b) as [lb|] eqn:Sb;
    try (intros E; destruct (C E) as (? & ? & ?); repeat split; auto;
         intros; congruence).
  destruct (bshape la lb) as [n|] eqn:B; [|discriminate].
  intros E; destruct (C E) as (? & ? & ?); repeat split; auto.
  intros ? ? [= <-] [= <-]. rewrite B. f_equal. now apply bshape_bmax.
Qed.

(** What a call of the constructor outside any control-dependency block
    does, when it returns. *)
Lemma init_inv (alpha beta : arg T) (name : string) (g g' : graph T)
    (self : gamma.Gamma) :
  control_stack g = [] ->
  gamma.__init__ alpha beta name g = Ok (self, g') ->
  control_stack g' = [] /\
  arg_dtype alpha = arg_dtype beta /\
  dtype_of (gamma._alpha self) = arg_dtype alpha /\
  dtype_of (gamma._beta self) = arg_dtype beta /\
  run (gamma._alpha self) = arg_value alpha /\
  run (gamma._beta self) = arg_value beta /\
  gamma._name self = name /\
  gamma._mean self = Binary [] Div (gamma._alpha self) (gamma._beta self) /\
  gamma._variance self =
    Binary [] Div (gamma._alpha self) (Unary [] Square (gamma._beta self)) /\
  (forall la lb,
      get_shape (gamma._alpha self) = Some la ->
      get_shape (gamma._beta self) = Some lb ->
      bshape la lb = Some (bmax la lb)) /\
  (exists l,
      created g' = l ++ created g /\
      In (FloatOp (AssertPositive [] (gamma._alpha self))) l /\
      In (FloatOp (AssertPositive [] (gamma._beta self))) l /\
      In (FloatOp (gamma._mean self)) l /\
      In (FloatOp (gamma._variance self)) l) /\
  gamma._batch_shape self = get_shape (gamma._mean self) /\
  gamma._event_shape self = [] /\
  gamma._alpha self = arg_tensor float32 alpha /\
  gamma._beta self = arg_tensor float32 beta.
Proof.
  intros H.
  unfold gamma.__init__, ops.op_scope, bind.
  destruct (convert_tensor alpha g H) as (g1 & E1 & H1).
  rewrite E1.
  destruct (convert_tensor beta g1 H1) as (g2 & E2 & H2).
  rewrite E2.
  pose proof (arg_tensor_dtype alpha) as D1.
  pose proof (arg_tensor_dtype beta) as D2.
  pose proof (arg_tensor_run float32 alpha) as R1.
  pose proof (arg_tensor_run float32 beta) as R2.
  set (ta := arg_tensor float32 alpha) in *.
  set (tb := arg_tensor float32 beta) in *.
  unfold contrib_tensor_util.assert_same_float_dtype, bind. simpl.
  destruct (dtype_eqb (dtype_of ta) (dtype_of tb)) eqn:D;
    [|discriminate].
  apply dtype_eqb_eq in D. unfold ret. simpl. rewrite H2. simpl.
  rewrite operator_tensor.
  match goal with
  | |- context [math_ops.binary Div ta tb ?g0] =>
      destruct (math_ops.binary Div ta tb g0) as [[m g5]|] eqn:E5;
      [apply binary_inv in E5; [|reflexivity]|discriminate]
  end.
  destruct E5 as (-> & H5 & C5 & _ & S5).
  rewrite H5, operator_tensor.
  match goal with
  | |- context [math_ops.binary Div ta ?sq ?g0] =>
      destruct (math_ops.binary Div ta sq g0) as [[v g6]|] eqn:E6;
      [apply binary_inv in E6; [|reflexivity]|discriminate]
  end.
  destruct E6 as (-> & H6 & C6 & _ & S6).
  destruct (convert_created alpha None g ta g1 E1) as (l1 & X1).
  destruct (convert_created beta None g1 tb g2 E2) as (l2 & X2).
  intros [= <- <-]. simpl.
  rewrite C6. simpl. rewrite C5. simpl. rewrite X2, X1.
  repeat match goal with |- _ /\ _ => split end; auto; try congruence.
  exists (FloatOp (Binary [] Div ta (Unary [] Square tb))
          :: FloatOp (Unary [] Square tb)
          :: FloatOp (Binary [] Div ta tb)
          :: FloatOp (AssertPositive [] tb)
          :: FloatOp (AssertPositive [] ta) :: l2 ++ l1).
  simpl. rewrite <- app_assoc. auto 10.
Qed.

End Constructor.

(** ** The methods: which graph each one builds *)

Ltac mstep E := rewrite (bind_ok _ _ _ _ _ E); cbv beta.

Ltac side :=
  first [ assumption
        | reflexivity
        | symmetry; assumption
        | solve [simpl; congruence]
        | solve [bshape_cases] ].

Section Methods.
Context {T : Type} {K : Kernels T}.

Lemma same_dtype_ok (t : tensor T) (d : dtype) (g : graph T) :
  dtype_of t = d ->
  contrib_tensor_util.assert_same_float_dtype [t] (Some d) g = Ok (d, g).
Proof.
  intros <-. unfold contrib_tensor_util.assert_same_float_dtype, bind.
  simpl. now rewrite dtype_eqb_refl.
Qed.

Lemma same_dtype_mismatch (t : tensor T) (d : dtype) (g : graph T) :
  dtype_of t <> d ->
  contrib_tensor_util.assert_same_float_dtype [t] (Some d) g
    = Raise TypeMismatchError.
Proof.
  intros H. unfold contrib_tensor_util.assert_same_float_dtype, bind.
  simpl. assert (E : dtype_eqb d (dtype_of t) = false)
    by (apply dtype_eqb_neq; congruence).
  now rewrite E.
Qed.

Lemma operator_build (f : binop) (a b : tensor T) (la lb n : nat)
    (g : graph T) :
  control_stack g = [] ->
  dtype_of a = dtype_of b ->
  get_shape a = Some la ->
  get_shape b = Some lb ->
  bshape la lb = Some n ->
  exists g',
    math_ops.operator f a (Tensor b) g = Ok (Binary [] f a b, g') /\
    control_stack g' = [] /\
    created g' = FloatOp (Binary [] f a b) :: created g /\
    get_shape (Binary [] f a b) = Some n.
Proof. rewrite operator_tensor. apply binary_build. Qed.

(** [log_cdf] on an argument of the distribution's element type whose static
    shape broadcasts against the parameters. *)
Lemma log_cdf_built (self : gamma.Gamma) (x : arg T) (g : graph T)
    (la lb lx : nat) :
  control_stack g = [] ->
  dtype_of (gamma._alpha self) = dtype_of (gamma._beta self) ->
  arg_dtype x = gamma.dtype self ->
  get_shape (gamma._alpha self) = Some la ->
  get_shape (gamma._beta self) = Some lb ->
  get_shape (arg_tensor float32 x) = Some lx ->
  bshape lb lx = Some (bmax lb lx) ->
  bshape la (bmax lb lx) = Some (bmax la (bmax lb lx)) ->
  let xt := arg_tensor float32 x in
  exists g',
    gamma.log_cdf self x g =
      Ok (Unary [] Log
            (Binary [] Igamma (gamma._alpha self)
               (Binary [] Mul (gamma._beta self)
                  (Unary [AssertPositive [] xt] Identity xt))), g') /\
    control_stack g' = [].
Proof.
  intros H D Dx Sa Sb Sx B1 B2 xt.
  unfold gamma.log_cdf, ops.op_scope, ops.name_scope.
  destruct (convert_tensor x g H) as (g1 & E1 & H1). mstep E1.
  destruct (assert_positive_spec xt g1 H1) as (g2 & E2 & H2 & _). mstep E2.
  destruct (with_dependencies_spec [AssertPositive [] xt] xt g2 H2)
    as (g3 & E3 & H3). mstep E3.
  set (xg := Unary [AssertPositive [] xt] Identity xt) in *.
  assert (Dg : dtype_of xg = gamma.dtype self).
  { simpl. unfold xt. now rewrite arg_tensor_dtype. }
  mstep (same_dtype_ok xg (gamma.dtype self) g3 Dg).
  destruct (operator_build Mul (gamma._beta self) xg lb lx (bmax lb lx) g3)
    as (g4 & E4 & H4 & _ & S4); auto.
  { unfold gamma.dtype in Dg. congruence. }
  mstep E4. unfold math_ops.igamma.
  destruct (binary_build Igamma (gamma._alpha self)
              (Binary [] Mul (gamma._beta self) xg)
              la (bmax lb lx) (bmax la (bmax lb lx)) g4)
    as (g5 & E5 & H5 & _ & S5); auto.
  mstep E5.
  destruct (unary_spec Log (Binary [] Igamma (gamma._alpha self)
                 (Binary [] Mul (gamma._beta self) xg)) g5 H5)
    as (g6 & E6 & H6 & _).
  unfold math_ops.log. rewrite E6. eauto.
Qed.

Lemma operator_py_build (f : binop) (a : tensor T) (v : list T)
    (la n : nat) (g : graph T) :
  control_stack g = [] ->
  get_shape a = Some la ->
  bshape la (length v) = Some n ->
  exists g',
    math_ops.operator f a (PyFloats v) g
      = Ok (Binary [] f a (Const [] (dtype_of a) v), g') /\
    control_stack g' = [] /\
    get_shape (Binary [] f a (Const [] (dtype_of a) v)) = Some n.
Proof.
  intros H Sa B. unfold math_ops.operator.
  destruct (convert_to_tensor_as (PyFloats v) (dtype_of a) g H eq_refl)
    as (g1 & E1 & H1 & D1).
  mstep E1. simpl arg_tensor.
  destruct (binary_build f a (Const [] (dtype_of a) v) la (length v) n g1)
    as (g2 & E2 & H2 & _ & S2); auto.
  rewrite E2. eauto.
Qed.

Lemma roperator_py_build (f : binop) (v : list T) (b : tensor T)
    (lb n : nat) (g : graph T) :
  control_stack g = [] ->
  get_shape b = Some lb ->
  bshape (length v) lb = Some n ->
  exists g',
    math_ops.roperator f (PyFloats v) b g
      = Ok (Binary [] f (Const [] (dtype_of b) v) b, g') /\
    control_stack g' = [] /\
    get_shape (Binary [] f (Const [] (dtype_of b) v) b) = Some n.
Proof.
  intros H Sb B. unfold math_ops.roperator.
  destruct (convert_to_tensor_as (PyFloats v) (dtype_of b) g H eq_refl)
    as (g1 & E1 & H1 & D1).
  mstep E1. simpl arg_tensor.
  destruct (binary_build f (Const [] (dtype_of b) v) b (length v) lb n g1)
    as (g2 & E2 & H2 & _ & S2); auto.
  rewrite E2. eauto.
Qed.

(** [log_pdf] on an argument of the distribution's element type whose static
    shape broadcasts against the parameters. *)
Lemma log_pdf_built (self : gamma.Gamma) (x : arg T) (g : graph T)
    (la lb lx n : nat) :
  control_stack g = [] ->
  dtype_of (gamma._alpha self) = dtype_of (gamma._beta self) ->
  arg_dtype x = gamma.dtype self ->
  get_shape (gamma._alpha self) = Some la ->
  get_shape (gamma._beta self) = Some lb ->
  get_shape (arg_tensor float32 x) = Some lx ->
  bshape la lb = Some (bmax la lb) ->
  bshape (bmax la lb) lx = Some n ->
  let a := gamma._alpha self in
  let b := gamma._beta self in
  let xt := arg_tensor float32 x in
  let xg := Unary [AssertPositive [] xt] Identity xt in
  exists g',
    gamma.log_pdf self x g =
      Ok (Binary [] Sub
            (Binary [] Sub
               (Binary [] Add
                  (Binary [] Mul a (Unary [] Log b))
                  (Binary [] Mul
                     (Binary [] Sub a (Const [] (dtype_of a) [k_one]))
                     (Unary [] Log xg)))
               (Binary [] Mul b xg))
            (Unary [] Lgamma a), g') /\
    control_stack g' = [].
Proof.
  intros H D Dx Sa Sb Sx B1 B2 a b xt xg.
  unfold gamma.log_pdf, ops.op_scope, ops.name_scope.
  cbv zeta. fold a b.
  destruct (convert_tensor x g H) as (g1 & E1 & H1). mstep E1.
  destruct (assert_positive_spec xt g1 H1) as (g2 & E2 & H2 & _). mstep E2.
  destruct (with_dependencies_spec [AssertPositive [] xt] xt g2 H2)
    as (g3 & E3 & H3). mstep E3. fold xg.
  assert (Dg : dtype_of xg = gamma.dtype self).
  { simpl. unfold xt. now rewrite arg_tensor_dtype. }
  assert (Dga : dtype_of xg = dtype_of a) by exact Dg.
  assert (Dgb : dtype_of b = dtype_of xg) by (rewrite Dga; now symmetry).
  assert (Dgt : dtype_of a = dtype_of xt) by (symmetry; exact Dga).
  mstep (same_dtype_ok xg (gamma.dtype self) g3 Dg).
  destruct (unary_spec Log b g3 H3) as (g4 & E4 & H4 & _).
  unfold math_ops.log at 1. mstep E4.
  destruct (operator_build Mul a (Unary [] Log b) la lb (bmax la lb) g4)
    as (g5 & E5 & H5 & _ & S5); [side .. |].
  mstep E5.
  destruct (operator_py_build Sub a [k_one] la la g5 H5 Sa (bshape_one_r la))
    as (g6 & E6 & H6 & S6).
  mstep E6.
  destruct (unary_spec Log xg g6 H6) as (g7 & E7 & H7 & _).
  unfold math_ops.log at 1. mstep E7.
  destruct (operator_build Mul
              (Binary [] Sub a (Const [] (dtype_of a) [k_one]))
              (Unary [] Log xg) la lx (bmax la lx) g7)
    as (g8 & E8 & H8 & _ & S8); [side .. |].
  mstep E8.
  match type of E5 with _ = Ok (?t1, _) =>
  match type of E8 with _ = Ok (?t2, _) =>
    destruct (operator_build Add t1 t2 (bmax la lb) (bmax la lx)
                (bmax (bmax la lb) (bmax la lx)) g8)
      as (g9 & E9 & H9 & _ & S9); [side .. |]
  end end.
  mstep E9.
  destruct (operator_build Mul b xg lb lx (bmax lb lx) g9)
    as (g10 & E10 & H10 & _ & S10); [side .. |].
  mstep E10.
  match type of E9 with _ = Ok (?s, _) =>
    destruct (operator_build Sub s (Binary [] Mul b xg)
                (bmax (bmax la lb) (bmax la lx)) (bmax lb lx)
                (bmax (bmax (bmax la lb) (bmax la lx)) (bmax lb lx)) g10)
      as (g11 & E11 & H11 & _ & S11); [side .. |]
  end.
  mstep E11.
  destruct (unary_spec Lgamma a g11 H11) as (g12 & E12 & H12 & _).
  unfold math_ops.lgamma. mstep E12.
  match type of E11 with _ = Ok (?d, _) =>
    destruct (operator_build Sub d (Unary [] Lgamma a)
                (bmax (bmax (bmax la lb) (bmax la lx)) (bmax lb lx)) la
                (bmax (bmax (bmax (bmax la lb) (bmax la lx)) (bmax lb lx)) la)
                g12)
      as (g13 & E13 & H13 & _ & S13); [side .. |]
  end.
  rewrite E13. eauto.
Qed.

End Methods.

(** ** The methods: what a session computes for those graphs *)

Section Running.
Context {T : Type} {K : Kernels T}.

Lemma run_const (d : dtype) (v : list T) : run (Const [] d v) = Ok v.
Proof. reflexivity. Qed.

(** The graph of [log_pdf], evaluated. *)
Lemma log_pdf_run (a b xt : tensor T) (va vb vx : list T) (n : nat) :
  run a = Ok va ->
  run b = Ok vb ->
  run xt = Ok vx ->
  bshape (length va) (length vb) = Some (bmax (length va) (length vb)) ->
  bshape (bmax (length va) (length vb)) (length vx) = Some n ->
  let xg := Unary [AssertPositive [] xt] Identity xt in
  let t :=
    Binary [] Sub
      (Binary [] Sub
         (Binary [] Add
            (Binary [] Mul a (Unary [] Log b))
            (Binary [] Mul
               (Binary [] Sub a (Const [] (dtype_of a) [k_one]))
               (Unary [] Log xg)))
         (Binary [] Mul b xg))
      (Unary [] Lgamma a) in
  (forallb (k_less k_zero) vx = true ->
   exists r,
     run t = Ok r /\ length r = n /\
     forall i ea eb ex,
       bnth va i = Some ea -> bnth vb i = Some eb -> bnth vx i = Some ex ->
       bnth r i =
       Some (k_sub
               (k_sub
                  (k_add (k_mul ea (k_log eb))
                         (k_mul (k_sub ea k_one) (k_log ex)))
                  (k_mul eb ex))
               (k_lgamma ea))) /\
  (forallb (k_less k_zero) vx = false -> run t = Raise DomainError).
Proof.
  intros Ra Rb Rx B1 B2 xg t.
  pose proof (run_guarded xt vx Rx) as Rg. fold xg in Rg.
  pose proof (run_unary Log b vb Rb) as Rlb.
  pose proof (run_const (dtype_of a) [k_one]) as Rone.
  pose proof (run_unary Lgamma a va Ra) as Rlg.
  remember (length va) as la eqn:Ela.
  remember (length vb) as lb eqn:Elb.
  remember (length vx) as lx eqn:Elx.
  destruct (run_binary Mul a (Unary [] Log b) va (map (un Log) vb)
              (bmax la lb) Ra Rlb) as (r1 & R1 & L1 & P1).
  { rewrite length_map, <- Ela, <- Elb. exact B1. }
  destruct (run_binary Sub a (Const [] (dtype_of a) [k_one]) va [k_one]
              la Ra Rone) as (r2 & R2 & L2 & P2).
  { rewrite <- Ela. apply bshape_one_r. }
  split.
  - intros Pos. rewrite Pos in Rg.
    pose proof (run_unary Log xg vx Rg) as Rlx.
    destruct (run_binary Mul _ _ r2 (map (un Log) vx) (bmax la lx) R2 Rlx)
      as (r3 & R3 & L3 & P3).
    { rewrite length_map, L2, <- Elx. bshape_cases. }
    destruct (run_binary Add _ _ r1 r3 (bmax (bmax la lb) (bmax la lx)) R1 R3)
      as (r4 & R4 & L4 & P4).
    { rewrite L1, L3. bshape_cases. }
    destruct (run_binary Mul b xg vb vx (bmax lb lx) Rb Rg)
      as (r5 & R5 & L5 & P5).
    { rewrite <- Elb, <- Elx. bshape_cases. }
    destruct (run_binary Sub _ _ r4 r5
                (bmax (bmax (bmax la lb) (bmax la lx)) (bmax lb lx)) R4 R5)
      as (r6 & R6 & L6 & P6).
    { rewrite L4, L5. bshape_cases. }
    destruct (run_binary Sub _ _ r6 (map (un Lgamma) va) n R6 Rlg)
      as (r7 & R7 & L7 & P7).
    { rewrite length_map, L6, <- Ela. bshape_cases. }
    exists r7. repeat split; [exact R7 | exact L7 |].
    intros i ea eb ex Ha Hb Hx.
    apply P7; [|now apply bnth_map].
    apply P6; [|now apply P5].
    apply P4.
    + apply P1; [assumption | now apply bnth_map].
    + apply P3; [|now apply bnth_map].
      apply P2; [assumption | reflexivity].
  - intros Neg. rewrite Neg in Rg.
    unfold t.
    apply run_binary_raise_l, run_binary_raise_l.
    apply (run_binary_raise_r Add _ _ r1 DomainError R1).
    apply (run_binary_raise_r Mul _ _ r2 DomainError R2).
    now apply run_unary_raise.
Qed.

End Running.

(** ** [log_cdf], [cdf], [entropy] and [pdf] *)

Section OtherMethods.
Context {T : Type} {K : Kernels T}.

(** The graph of [log_cdf], evaluated. *)
Lemma log_cdf_run (a b xt : tensor T) (va vb vx : list T) (n : nat) :
  run a = Ok va ->
  run b = Ok vb ->
  run xt = Ok vx ->
  bshape (length va) (length vb) = Some (bmax (length va) (length vb)) ->
  bshape (bmax (length va) (length vb)) (length vx) = Some n ->
  let xg := Unary [AssertPositive [] xt] Identity xt in
  let t := Unary [] Log (Binary [] Igamma a (Binary [] Mul b xg)) in
  (forallb (k_less k_zero) vx = true ->
   exists r,
     run t = Ok r /\ length r = n /\
     forall i ea eb ex,
       bnth va i = Some ea -> bnth vb i = Some eb -> bnth vx i = Some ex ->
       bnth r i = Some (k_log (k_igamma ea (k_mul eb ex)))) /\
  (forallb (k_less k_zero) vx = false -> run t = Raise DomainError).
Proof.
  intros Ra Rb Rx B1 B2 xg t.
  pose proof (run_guarded xt vx Rx) as Rg. fold xg in Rg.
  remember (length va) as la eqn:Ela.
  remember (length vb) as lb eqn:Elb.
  remember (length vx) as lx eqn:Elx.
  split.
  - intros Pos. rewrite Pos in Rg.
    destruct (run_binary Mul b xg vb vx (bmax lb lx) Rb Rg)
      as (r1 & R1 & L1 & P1).
    { rewrite <- Elb, <- Elx. bshape_cases. }
    destruct (run_binary Igamma a _ va r1 n Ra R1) as (r2 & R2 & L2 & P2).
    { rewrite L1, <- Ela. bshape_cases. }
    exists (map (un Log) r2). repeat split.
    + now apply run_unary.
    + now rewrite length_map.
    + intros i ea eb ex Ha Hb Hx.
      apply (bnth_map (un Log)). apply P2; [assumption|]. now apply P1.
  - intros Neg. rewrite Neg in Rg. unfold t.
    apply run_unary_raise.
    apply (run_binary_raise_r Igamma _ _ va DomainError Ra).
    now apply (run_binary_raise_r Mul _ _ vb DomainError Rb).
Qed.

Lemma operator_arg_build (f : binop) (a : tensor T) (x : arg T)
    (la lx n : nat) (g : graph T) :
  control_stack g = [] ->
  arg_fits x (dtype_of a) = true ->
  get_shape a = Some la ->
  get_shape (arg_tensor (dtype_of a) x) = Some lx ->
  bshape la lx = Some n ->
  exists g',
    math_ops.operator f a x g
      = Ok (Binary [] f a (arg_tensor (dtype_of a) x), g') /\
    control_stack g' = [] /\
    get_shape (Binary [] f a (arg_tensor (dtype_of a) x)) = Some n.
Proof.
  intros H F Sa Sx B. unfold math_ops.operator.
  destruct (convert_to_tensor_as x (dtype_of a) g H F) as (g1 & E1 & H1 & D1).
  mstep E1.
  destruct (binary_build f a (arg_tensor (dtype_of a) x) la lx n g1)
    as (g2 & E2 & H2 & _ & S2); auto.
  rewrite E2. eauto.
Qed.

(** [cdf] on an argument that converts to the distribution's element type
    and whose static shape broadcasts against the parameters: no assertion
    is attached to the argument. *)
Lemma cdf_built (self : gamma.Gamma) (x : arg T) (g : graph T)
    (la lb lx : nat) :
  control_stack g = [] ->
  dtype_of (gamma._alpha self) = dtype_of (gamma._beta self) ->
  arg_fits x (gamma.dtype self) = true ->
  get_shape (gamma._alpha self) = Some la ->
  get_shape (gamma._beta self) = Some lb ->
  get_shape (arg_tensor (gamma.dtype self) x) = Some lx ->
  bshape lb lx = Some (bmax lb lx) ->
  bshape la (bmax lb lx) = Some (bmax la (bmax lb lx)) ->
  exists g',
    gamma.cdf self x g =
      Ok (Binary [] Igamma (gamma._alpha self)
            (Binary [] Mul (gamma._beta self)
               (arg_tensor (gamma.dtype self) x)), g') /\
    control_stack g' = [].
Proof.
  unfold gamma.dtype. intros H D F Sa Sb Sx B1 B2.
  unfold gamma.cdf, ops.op_scope, ops.name_scope.
  rewrite D in F, Sx |- *.
  destruct (operator_arg_build Mul (gamma._beta self) x lb lx (bmax lb lx) g)
    as (g1 & E1 & H1 & S1); [side .. |].
  mstep E1. unfold math_ops.igamma.
  destruct (binary_build Igamma (gamma._alpha self)
              (Binary [] Mul (gamma._beta self)
                 (arg_tensor (dtype_of (gamma._beta self)) x))
              la (bmax lb lx) (bmax la (bmax lb lx)) g1)
    as (g2 & E2 & H2 & _ & S2); [side .. |].
  rewrite E2. eauto.
Qed.

(** The graph of [cdf], evaluated: whatever the sign of the elements of the
    argument, the result is the incomplete gamma kernel at [beta * x]. *)
Lemma cdf_run (a b xt : tensor T) (va vb vx : list T) (n : nat) :
  run a = Ok va ->
  run b = Ok vb ->
  run xt = Ok vx ->
  bshape (length va) (length vb) = Some (bmax (length va) (length vb)) ->
  bshape (bmax (length va) (length vb)) (length vx) = Some n ->
  exists r,
    run (Binary [] Igamma a (Binary [] Mul b xt)) = Ok r /\
    length r = n /\
    forall i ea eb ex,
      bnth va i = Some ea -> bnth vb i = Some eb -> bnth vx i = Some ex ->
      bnth r i = Some (k_igamma ea (k_mul eb ex)).
Proof.
  intros Ra Rb Rx B1 B2.
  remember (length va) as la eqn:Ela.
  remember (length vb) as lb eqn:Elb.
  remember (length vx) as lx eqn:Elx.
  destruct (run_binary Mul b xt vb vx (bmax lb lx) Rb Rx)
    as (r1 & R1 & L1 & P1).
  { rewrite <- Elb, <- Elx. bshape_cases. }
  destruct (run_binary Igamma a _ va r1 n Ra R1) as (r2 & R2 & L2 & P2).
  { rewrite L1, <- Ela. bshape_cases. }
  exists r2. repeat split; [exact R2 | exact L2 |].
  intros i ea eb ex Ha Hb Hx. apply P2; [assumption|]. now apply P1.
Qed.

(** [entropy] of a distribution whose parameters have one element type and
    static shapes that broadcast. *)
Lemma entropy_built (self : gamma.Gamma) (g : graph T) (la lb : nat) :
  control_stack g = [] ->
  dtype_of (gamma._alpha self) = dtype_of (gamma._beta self) ->
  get_shape (gamma._alpha self) = Some la ->
  get_shape (gamma._beta self) = Some lb ->
  bshape la lb = Some (bmax la lb) ->
  let a := gamma._alpha self in
  let b := gamma._beta self in
  exists g',
    gamma.entropy self g =
      Ok (Binary [] Add
            (Binary [] Add
               (Binary [] Sub a (Unary [] Log b))
               (Unary [] Lgamma a))
            (Binary [] Mul
               (Binary [] Sub (Const [] (dtype_of a) [k_one]) a)
               (Unary [] Digamma a)), g') /\
    control_stack g' = [].
Proof.
  intros H D Sa Sb B1 a b.
  unfold gamma.entropy, ops.op_scope, ops.name_scope.
  cbv zeta. fold a b.
  destruct (unary_spec Log b g H) as (g1 & E1 & H1 & _).
  unfold math_ops.log. mstep E1.
  destruct (operator_build Sub a (Unary [] Log b) la lb (bmax la lb) g1)
    as (g2 & E2 & H2 & _ & S2); [side .. |].
  mstep E2.
  destruct (unary_spec Lgamma a g2 H2) as (g3 & E3 & H3 & _).
  unfold math_ops.lgamma. mstep E3.
  destruct (operator_build Add (Binary [] Sub a (Unary [] Log b))
              (Unary [] Lgamma a) (bmax la lb) la (bmax (bmax la lb) la) g3)
    as (g4 & E4 & H4 & _ & S4); [side .. |].
  mstep E4.
  destruct (roperator_py_build Sub [k_one] a la la g4 H4 Sa eq_refl)
    as (g5 & E5 & H5 & S5).
  mstep E5.
  destruct (unary_spec Digamma a g5 H5) as (g6 & E6 & H6 & _).
  unfold math_ops.digamma. mstep E6.
  destruct (operator_build Mul
              (Binary [] Sub (Const [] (dtype_of a) [k_one]) a)
              (Unary [] Digamma a) la la (bmax la la) g6)
    as (g7 & E7 & H7 & _ & S7); [side .. |].
  mstep E7.
  match type of E4 with _ = Ok (?s, _) =>
  match type of E7 with _ = Ok (?p, _) =>
    destruct (operator_build Add s p (bmax (bmax la lb) la) (bmax la la)
                (bmax (bmax (bmax la lb) la) (bmax la la)) g7)
      as (g8 & E8 & H8 & _ & S8); [side .. |]
  end end.
  rewrite E8. eauto.
Qed.

(** The graph of [entropy], evaluated. *)
Lemma entropy_run (a b : tensor T) (va vb : list T) :
  run a = Ok va ->
  run b = Ok vb ->
  bshape (length va) (length vb) = Some (bmax (length va) (length vb)) ->
  exists r,
    run (Binary [] Add
           (Binary [] Add
              (Binary [] Sub a (Unary [] Log b))
              (Unary [] Lgamma a))
           (Binary [] Mul
              (Binary [] Sub (Const [] (dtype_of a) [k_one]) a)
              (Unary [] Digamma a))) = Ok r /\
    length r = bmax (length va) (length vb) /\
    forall i ea eb,
      bnth va i = Some ea -> bnth vb i = Some eb ->
      bnth r i =
      Some (k_add (k_add (k_sub ea (k_log eb)) (k_lgamma ea))
                  (k_mul (k_sub k_one ea) (k_digamma ea))).
Proof.
  intros Ra Rb B1.
  pose proof (run_unary Log b vb Rb) as Rlb.
  pose proof (run_unary Lgamma a va Ra) as Rlg.
  pose proof (run_unary Digamma a va Ra) as Rdg.
  pose proof (run_const (dtype_of a) [k_one]) as Rone.
  remember (length va) as la eqn:Ela.
  remember (length vb) as lb eqn:Elb.
  destruct (run_binary Sub a _ va _ (bmax la lb) Ra Rlb)
    as (r1 & R1 & L1 & P1).
  { rewrite length_map, <- Ela, <- Elb. exact B1. }
  destruct (run_binary Add _ _ r1 _ (bmax la lb) R1 Rlg)
    as (r2 & R2 & L2 & P2).
  { rewrite length_map, L1, <- Ela. bshape_cases. }
  destruct (run_binary Sub _ a [k_one] va la Rone Ra)
    as (r3 & R3 & L3 & P3).
  { rewrite <- Ela. reflexivity. }
  destruct (run_binary Mul _ _ r3 _ la R3 Rdg) as (r4 & R4 & L4 & P4).
  { rewrite length_map, L3, <- Ela. bshape_cases. }
  destruct (run_binary Add _ _ r2 r4 (bmax la lb) R2 R4)
    as (r5 & R5 & L5 & P5).
  { rewrite L2, L4. bshape_cases. }
  exists r5. repeat split; [exact R5 | exact L5 |].
  intros i ea eb Ha Hb.
  apply P5.
  - apply P2; [|now apply bnth_map].
    apply P1; [assumption | now apply bnth_map].
  - apply P4; [|now apply bnth_map].
    apply P3; [reflexivity | assumption].
Qed.

(** [pdf] is [log_pdf] followed by one [exp] operation. *)
Lemma pdf_unfold (self : gamma.Gamma) (x : arg T) (g : graph T) :
  gamma.pdf self x g =
  match gamma.log_pdf self x g with
  | Ok (l, g') =>
      Ok (Unary (control_stack g') Exp l,
          add_op g' (Unary (control_stack g') Exp l))
  | Raise e => Raise e
  end.
Proof.
  unfold gamma.pdf, ops.name_scope, bind.
  destruct (gamma.log_pdf self x g) as [[l g']|e]; reflexivity.
Qed.

End OtherMethods.

(** ** The Gamma function at three *)

Module RealFacts.
Import RealKernels.
Local Open Scope R_scope.

Lemma rising_three (n : nat) : rising 3 n * 2 = INR (fact (n + 3)).
Proof.
  induction n as [|m IH].
  - simpl. lra.
  - change (rising 3 (S m)) with (rising 3 m * (3 + INR (S m))).
    replace (S m + 3)%nat with (S (m + 3)) by lia.
    rewrite fact_simpl, mult_INR, <- IH.
    rewrite !S_INR, plus_INR. simpl INR. ring.
Qed.

Lemma fact_plus_three (n : nat) :
  INR (fact (n + 3)) =
  (INR n + 3) * (INR n + 2) * (INR n + 1) * INR (fact n).
Proof.
  replace (n + 3)%nat with (S (S (S n))) by lia.
  rewrite !fact_simpl, !mult_INR, !S_INR. ring.
Qed.

Lemma Gamma_seq_three (n : nat) :
  (0 < n)%nat ->
  Gamma_seq 3 n =
  2 * INR n ^ 3 / ((INR n + 1) * (INR n + 2) * (INR n + 3)).
Proof.
  intros Hn. unfold Gamma_seq.
  assert (Hx : 0 < INR n) by (apply lt_0_INR; exact Hn).
  assert (Hf : 0 < INR (fact n)) by (apply lt_0_INR, lt_O_fact).
  replace 3 with (INR 3) at 1 by (simpl; lra).
  rewrite Rpower_pow by exact Hx.
  assert (E : rising 3 n = INR (fact (n + 3)) / 2)
    by (rewrite <- rising_three; field).
  rewrite E, fact_plus_three. field.
  repeat split; lra.
Qed.

Lemma Gamma_seq_three_cv : Un_cv (Gamma_seq 3) 2.
Proof.
  intros eps Heps.
  destruct (archimed (12 / eps)) as [HN _].
  assert (Hup : (0 <= up (12 / eps))%Z).
  { apply le_IZR. apply Rlt_le. eapply Rlt_trans; [|exact HN].
    apply Rdiv_lt_0_compat; lra. }
  exists (S (Z.to_nat (up (12 / eps)))).
  intros n Hn.
  assert (Hx : 12 / eps < INR n).
  { eapply Rlt_le_trans; [exact HN|].
    rewrite <- (Z2Nat.id _ Hup), <- INR_IZR_INZ.
    apply le_INR. lia. }
  assert (Hpos : 0 < INR n).
  { eapply Rlt_trans; [|exact Hx]. apply Rdiv_lt_0_compat; lra. }
  rewrite Gamma_seq_three by (apply INR_lt; simpl; exact Hpos).
  unfold Rdist.
  set (x := INR n) in *.
  assert (E : 2 * x ^ 3 / ((x + 1) * (x + 2) * (x + 3)) - 2 =
              - (2 * (6 * x ^ 2 + 11 * x + 6)
                 / ((x + 1) * (x + 2) * (x + 3)))).
  { field. repeat split; lra. }
  rewrite E, Rabs_Ropp, Rabs_pos_eq.
  2:{ apply Rlt_le, Rdiv_lt_0_compat; nra. }
  assert (Hx' : 12 < eps * x).
  { apply (Rmult_lt_compat_l eps) in Hx; [|exact Heps].
    replace (eps * (12 / eps)) with 12 in Hx by (field; lra). exact Hx. }
  apply (Rmult_lt_reg_r ((x + 1) * (x + 2) * (x + 3))); [nra|].
  replace (2 * (6 * x ^ 2 + 11 * x + 6) / ((x + 1) * (x + 2) * (x + 3))
           * ((x + 1) * (x + 2) * (x + 3)))
    with (2 * (6 * x ^ 2 + 11 * x + 6)) by (field; repeat split; lra).
  assert (H1 : 2 * (6 * x ^ 2 + 11 * x + 6) <= 12 * ((x + 2) * (x + 3)))
    by nra.
  assert (H2 : 12 * ((x + 2) * (x + 3)) < eps * x * ((x + 2) * (x + 3))).
  { apply Rmult_lt_compat_r; [nra | exact Hx']. }
  assert (H3 : eps * x * ((x + 2) * (x + 3))
               < eps * ((x + 1) * (x + 2) * (x + 3))).
  { assert (0 < eps * ((x + 2) * (x + 3))) by (apply Rmult_lt_0_compat; nra).
    nra. }
  lra.
Qed.

Lemma Gamma_fn_three : Gamma_fn 3 = 2.
Proof.
  unfold Gamma_fn.
  apply (UL_sequence (Gamma_seq 3)); [|exact Gamma_seq_three_cv].
  apply epsilon_spec. exists 2. exact Gamma_seq_three_cv.
Qed.

Lemma Rlgamma_three : Rlgamma 3 = ln 2.
Proof. unfold Rlgamma. now rewrite Gamma_fn_three. Qed.

Lemma Rless_true (x y : R) : x < y -> Rless x y = true.
Proof. intros H. unfold Rless. destruct (Rlt_dec x y); [reflexivity|lra]. Qed.

Lemma Rless_false (x y : R) : y <= x -> Rless x y = false.
Proof. intros H. unfold Rless. destruct (Rlt_dec x y); [lra|reflexivity]. Qed.

End RealFacts.

(** ** Regularity of graph construction *)

Section Regularity.
Context {T : Type} {K : Kernels T}.

Lemma regular_ret {A} (a : A) : regular (ret (T:=T) a).
Proof. intros g1 g2 H. simpl. auto. Qed.

Lemma regular_raise {A} (e : exn) : regular (raise (T:=T) (A:=A) e).
Proof. intros g1 g2 H. reflexivity. Qed.

Lemma regular_bind {A B} (m : M T A) (k : A -> M T B) :
  regular m -> (forall a, regular (k a)) -> regular (bind m k).
Proof.
  intros Hm Hk g1 g2 H. unfold bind.
  specialize (Hm g1 g2 H).
  destruct (m g1) as [[a1 g1']|e1], (m g2) as [[a2 g2']|e2];
    try contradiction; auto.
  destruct Hm as (<- & S1 & S2).
  assert (H' : control_stack g1' = control_stack g2') by congruence.
  specialize (Hk a1 g1' g2' H').
  destruct (k a1 g1') as [[b1 g1'']|], (k a1 g2') as [[b2 g2'']|];
    try contradiction; auto.
  destruct Hk as (<- & S1' & S2'). repeat split; congruence.
Qed.

Lemma regular_create_op (mk : list (tensor T) -> tensor T) :
  regular (create_op mk).
Proof. intros g1 g2 H. unfold create_op. simpl. rewrite H. auto. Qed.

Lemma regular_create_int_op (mk : list (tensor T) -> itensor T) :
  regular (create_int_op mk).
Proof. intros g1 g2 H. unfold create_int_op. simpl. rewrite H. auto. Qed.

Lemma regular_if {A} (c : bool) (m1 m2 : M T A) :
  regular m1 -> regular m2 -> regular (if c then m1 else m2).
Proof. now destruct c. Qed.

Lemma regular_control_dependencies {A} (deps : list (tensor T))
    (body : M T A) :
  regular body -> regular (ops.control_dependencies deps body).
Proof.
  intros Hb g1 g2 H. unfold ops.control_dependencies.
  match goal with
  | |- match match body ?a with _ => _ end with _ => _ end =>
      match goal with
      | |- context [body ?b] =>
          lazymatch b with
          | a => fail
          | _ => specialize (Hb a b)
          end
      end
  end.
  simpl in Hb. rewrite H in Hb. specialize (Hb eq_refl). rewrite H.
  repeat match goal with
         | |- context [body ?a] => destruct (body a) as [[? ?]|?]
         end; try contradiction; auto.
  destruct Hb as (<- & _ & _). simpl. auto.
Qed.

Lemma regular_convert (x : arg T) (d : option dtype) :
  regular (ops.convert_to_tensor x d).
Proof.
  destruct x as [v|t]; simpl.
  - apply regular_create_op.
  - destruct d as [d|]; [apply regular_if|]; auto using regular_ret, regular_raise.
Qed.

Lemma regular_unary (f : unop) (a : tensor T) : regular (math_ops.unary f a).
Proof. apply regular_create_op. Qed.

Lemma regular_binary (f : binop) (a b : tensor T) :
  regular (math_ops.binary f a b).
Proof.
  unfold math_ops.binary. apply regular_if; [|apply regular_raise].
  destruct (get_shape a), (get_shape b); try apply regular_create_op.
  destruct (bshape _ _); [apply regular_create_op | apply regular_raise].
Qed.

Lemma regular_operator (f : binop) (a : tensor T) (y : arg T) :
  regular (math_ops.operator f a y).
Proof.
  apply regular_bind; [apply regular_convert | intro; apply regular_binary].
Qed.

Lemma regular_roperator (f : binop) (x : arg T) (b : tensor T) :
  regular (math_ops.roperator f x b).
Proof.
  apply regular_bind; [apply regular_convert | intro; apply regular_binary].
Qed.

Lemma regular_assert_positive (x : tensor T) :
  regular (check_ops.assert_positive x).
Proof. apply regular_create_op. Qed.

Lemma regular_with_dependencies (deps : list (tensor T)) (x : tensor T) :
  regular (control_flow_ops.with_dependencies deps x).
Proof. apply regular_control_dependencies, regular_create_op. Qed.

Lemma regular_same_base_type (items : list (tensor T)) :
  forall d, regular (contrib_tensor_util._assert_same_base_type items d).
Proof.
  induction items as [|t items IH]; intros d; simpl.
  - apply regular_ret.
  - destruct d as [d|]; [|apply IH].
    apply regular_if; [apply IH | apply regular_raise].
Qed.

Lemma regular_same_float_dtype (tensors : list (tensor T))
    (d : option dtype) :
  regular (contrib_tensor_util.assert_same_float_dtype tensors d).
Proof.
  apply regular_bind; [apply regular_same_base_type | intro; apply regular_ret].
Qed.

End Regularity.

Create HintDb regular.

#[global] Hint Resolve regular_ret regular_raise regular_create_op
  regular_create_int_op regular_convert regular_unary regular_binary
  regular_operator regular_roperator regular_assert_positive
  regular_with_dependencies regular_same_float_dtype
  regular_control_dependencies : regular.

Ltac regular_tac :=
  repeat first
    [ solve [auto with regular]
    | apply regular_bind; [|intro] ].

Section RegularMethods.
Context {T : Type} {K : Kernels T}.

Lemma regular_log_pdf (self : gamma.Gamma) (x : arg T) :
  regular (gamma.log_pdf self x).
Proof.
  unfold gamma.log_pdf, ops.op_scope, ops.name_scope,
    math_ops.log, math_ops.lgamma.
  cbv zeta. regular_tac.
Qed.

Lemma regular_pdf (self : gamma.Gamma) (x : arg T) :
  regular (gamma.pdf self x).
Proof.
  unfold gamma.pdf, ops.name_scope, math_ops.exp.
  apply regular_bind; [apply regular_log_pdf | intro; auto with regular].
Qed.

Lemma regular_log_cdf (self : gamma.Gamma) (x : arg T) :
  regular (gamma.log_cdf self x).
Proof.
  unfold gamma.log_cdf, ops.op_scope, ops.name_scope,
    math_ops.log, math_ops.igamma.
  regular_tac.
Qed.

Lemma regular_cdf (self : gamma.Gamma) (x : arg T) :
  regular (gamma.cdf self x).
Proof.
  unfold gamma.cdf, ops.op_scope, ops.name_scope, math_ops.igamma.
  regular_tac.
Qed.

Lemma regular_entropy (self : gamma.Gamma (T:=T)) : regular (gamma.entropy self).
Proof.
  unfold gamma.entropy, ops.op_scope, ops.name_scope,
    math_ops.log, math_ops.lgamma, math_ops.digamma.
  cbv zeta. regular_tac.
Qed.

Lemma regular_batch_shape (self : gamma.Gamma (T:=T)) :
  regular (gamma.batch_shape self).
Proof. apply regular_create_int_op. Qed.

Lemma regular_event_shape (self : gamma.Gamma (T:=T)) :
  regular (gamma.event_shape self).
Proof. apply regular_create_int_op. Qed.

(** A regular method gives one outcome from any two graphs with the same
    control dependencies in force. *)
Lemma regular_outcome (m : M T (tensor T)) (g1 g2 : graph T) :
  regular (T:=T) m -> control_stack g1 = control_stack g2 ->
  outcome m g1 = outcome m g2.
Proof.
  intros Hm H. specialize (Hm g1 g2 H). unfold outcome.
  destruct (m g1) as [[t1 ?]|], (m g2) as [[t2 ?]|]; try contradiction.
  - now destruct Hm as (<- & _).
  - congruence.
Qed.

Lemma regular_outcome_int (m : M T (itensor T)) (g1 g2 : graph T) :
  regular (T:=T) m -> control_stack g1 = control_stack g2 ->
  outcome_int m g1 = outcome_int m g2.
Proof.
  intros Hm H. specialize (Hm g1 g2 H). unfold outcome_int.
  destruct (m g1) as [[t1 ?]|], (m g2) as [[t2 ?]|]; try contradiction.
  - now destruct Hm as (<- & _).
  - congruence.
Qed.

Lemma regular_stack {A} (m : M T A) (g g' : graph T) (a : A) :
  regular (T:=T) m -> m g = Ok (a, g') ->
  control_stack g' = control_stack g.
Proof.
  intros Hm E. specialize (Hm g g eq_refl). rewrite E in Hm. tauto.
Qed.

End RegularMethods.

(** ** Construction succeeds on parameters of one type that broadcast *)

Section Construction.
Context {T : Type} {K : Kernels T}.

Lemma arg_tensor_shape (d : dtype) (x : arg T) (v : list T) :
  arg_value x = Ok v -> get_shape (arg_tensor d x) = Some (length v).
Proof. intros H. apply run_shape. now rewrite arg_tensor_run. Qed.

Lemma init_ok (alpha beta : arg T) (name : string) (g : graph T)
    (va vb : list T) (n : nat) :
  control_stack g = [] ->
  arg_dtype alpha = arg_dtype beta ->
  arg_value alpha = Ok va ->
  arg_value beta = Ok vb ->
  bshape (length va) (length vb) = Some n ->
  exists self g', gamma.__init__ alpha beta name g = Ok (self, g').
Proof.
  intros H D Va Vb B.
  pose proof (arg_tensor_shape float32 alpha va Va) as Sa.
  pose proof (arg_tensor_shape float32 beta vb Vb) as Sb.
  rewrite <- !arg_tensor_dtype in D.
  set (ta := arg_tensor float32 alpha) in *.
  set (tb := arg_tensor float32 beta) in *.
  unfold gamma.__init__, ops.op_scope.
  assert (E : exists g3,
             (alpha0 <- ops.convert_to_tensor alpha None ;;
              beta0 <- ops.convert_to_tensor beta None ;;
              _ <- contrib_tensor_util.assert_same_float_dtype
                     [alpha0; beta0] None ;;
              pa <- check_ops.assert_positive alpha0 ;;
              pb <- check_ops.assert_positive beta0 ;;
              ops.control_dependencies [pa; pb] (ret (alpha0, beta0, name)))
             g = Ok ((ta, tb, name), g3) /\ control_stack g3 = []).
  { destruct (convert_tensor alpha g H) as (g1 & E1 & H1). mstep E1.
    destruct (convert_tensor beta g1 H1) as (g2 & E2 & H2). mstep E2.
    unfold contrib_tensor_util.assert_same_float_dtype, bind. simpl.
    fold ta tb. rewrite D, dtype_eqb_refl. unfold ret. simpl.
    unfold ops.control_dependencies. simpl. rewrite H2. eauto. }
  destruct E as (g3 & E & H3). mstep E.
  destruct (operator_build Div ta tb (length va) (length vb) n g3)
    as (g4 & E4 & H4 & _ & S4); [side .. |].
  mstep E4.
  destruct (unary_spec Square tb g4 H4) as (g5 & E5 & H5 & _).
  destruct (operator_build Div ta (Unary [] Square tb)
              (length va) (length vb) n g5)
    as (g6 & E6 & H6 & _ & S6); [side .. |].
  assert (Ev : (sq <- math_ops.square tb ;;
                math_ops.operator Div ta (Tensor sq)) g4
               = Ok (Binary [] Div ta (Unary [] Square tb), g6)).
  { unfold math_ops.square. mstep E5. exact E6. }
  mstep Ev. unfold ret. eauto.
Qed.

(** The facts about a distribution object the methods rely on. *)
Lemma constructed_inv (self : gamma.Gamma (T:=T)) :
  gamma.constructed self ->
  dtype_of (gamma._alpha self) = dtype_of (gamma._beta self) /\
  gamma._mean self = Binary [] Div (gamma._alpha self) (gamma._beta self) /\
  gamma._variance self =
    Binary [] Div (gamma._alpha self) (Unary [] Square (gamma._beta self)) /\
  (forall va vb,
      run (gamma._alpha self) = Ok va ->
      run (gamma._beta self) = Ok vb ->
      bshape (length va) (length vb)
        = Some (bmax (length va) (length vb))) /\
  gamma._batch_shape self = get_shape (gamma._mean self) /\
  gamma._event_shape self = [].
Proof.
  intros (alpha & beta & name & g & g' & H & E).
  destruct (init_inv alpha beta name g g' self H E)
    as (_ & D & Da & Db & _ & _ & _ & Hm & Hv & Hs & _ & Hb & He & _).
  repeat split; auto.
  - congruence.
  - intros va vb Ra Rb. apply Hs; now apply run_shape.
Qed.

End Construction.

(** ** What a caller observes of each method *)

Section Outcomes.
Context {T : Type} {K : Kernels T}.

Lemma singleton_value (r : list T) (v : T) :
  length r = 1 -> bnth r 0 = Some v -> r = [v].
Proof.
  intros L. destruct (length_one r L) as [x ->]. simpl. congruence.
Qed.

Lemma log_pdf_outcome (self : gamma.Gamma) (x : arg T) (g : graph T)
    (va vb vx : list T) (n : nat) :
  gamma.constructed self ->
  control_stack g = [] ->
  run (gamma._alpha self) = Ok va ->
  run (gamma._beta self) = Ok vb ->
  arg_value x = Ok vx ->
  arg_dtype x = gamma.dtype self ->
  bshape (bmax (length va) (length vb)) (length vx) = Some n ->
  (forallb (k_less k_zero) vx = true ->
   exists r,
     outcome (gamma.log_pdf self x) g = Ok r /\ length r = n /\
     forall i ea eb ex,
       bnth va i = Some ea -> bnth vb i = Some eb -> bnth vx i = Some ex ->
       bnth r i =
       Some (k_sub
               (k_sub
                  (k_add (k_mul ea (k_log eb))
                         (k_mul (k_sub ea k_one) (k_log ex)))
                  (k_mul eb ex))
               (k_lgamma ea))) /\
  (forallb (k_less k_zero) vx = false ->
   outcome (gamma.log_pdf self x) g = Raise DomainError).
Proof.
  intros C H Ra Rb Vx Dx B.
  destruct (constructed_inv self C) as (D & _ & _ & Hs & _).
  pose proof (Hs va vb Ra Rb) as B1.
  pose proof (log_pdf_built self x g (length va) (length vb) (length vx) n
                H D Dx (run_shape _ _ Ra) (run_shape _ _ Rb)
                (arg_tensor_shape float32 x vx Vx) B1 B) as P.
  cbv zeta in P. destruct P as (g' & E & _).
  unfold outcome. rewrite E.
  apply log_pdf_run; auto. now rewrite arg_tensor_run.
Qed.

Lemma log_cdf_outcome (self : gamma.Gamma) (x : arg T) (g : graph T)
    (va vb vx : list T) (n : nat) :
  gamma.constructed self ->
  control_stack g = [] ->
  run (gamma._alpha self) = Ok va ->
  run (gamma._beta self) = Ok vb ->
  arg_value x = Ok vx ->
  arg_dtype x = gamma.dtype self ->
  bshape (bmax (length va) (length vb)) (length vx) = Some n ->
  (forallb (k_less k_zero) vx = true ->
   exists r,
     outcome (gamma.log_cdf self x) g = Ok r /\ length r = n /\
     forall i ea eb ex,
       bnth va i = Some ea -> bnth vb i = Some eb -> bnth vx i = Some ex ->
       bnth r i = Some (k_log (k_igamma ea (k_mul eb ex)))) /\
  (forallb (k_less k_zero) vx = false ->
   outcome (gamma.log_cdf self x) g = Raise DomainError).
Proof.
  intros C H Ra Rb Vx Dx B.
  destruct (constructed_inv self C) as (D & _ & _ & Hs & _).
  pose proof (Hs va vb Ra Rb) as B1.
  assert (B2 : bshape (length vb) (length vx)
               = Some (bmax (length vb) (length vx))) by bshape_cases.
  assert (B3 : bshape (length va) (bmax (length vb) (length vx))
               = Some (bmax (length va) (bmax (length vb) (length vx))))
    by bshape_cases.
  pose proof (log_cdf_built self x g (length va) (length vb) (length vx)
                H D Dx (run_shape _ _ Ra) (run_shape _ _ Rb)
                (arg_tensor_shape float32 x vx Vx) B2 B3) as P.
  cbv zeta in P. destruct P as (g' & E & _).
  unfold outcome. rewrite E.
  apply log_cdf_run; auto. now rewrite arg_tensor_run.
Qed.

Lemma cdf_outcome (self : gamma.Gamma) (x : arg T) (g : graph T)
    (va vb vx : list T) (n : nat) :
  gamma.constructed self ->
  control_stack g = [] ->
  run (gamma._alpha self) = Ok va ->
  run (gamma._beta self) = Ok vb ->
  arg_value x = Ok vx ->
  arg_fits x (gamma.dtype self) = true ->
  bshape (bmax (length va) (length vb)) (length vx) = Some n ->
  exists r,
    outcome (gamma.cdf self x) g = Ok r /\ length r = n /\
    forall i ea eb ex,
      bnth va i = Some ea -> bnth vb i = Some eb -> bnth vx i = Some ex ->
      bnth r i = Some (k_igamma ea (k_mul eb ex)).
Proof.
  intros C H Ra Rb Vx Dx B.
  destruct (constructed_inv self C) as (D & _ & _ & Hs & _).
  pose proof (Hs va vb Ra Rb) as B1.
  assert (B2 : bshape (length vb) (length vx)
               = Some (bmax (length vb) (length vx))) by bshape_cases.
  assert (B3 : bshape (length va) (bmax (length vb) (length vx))
               = Some (bmax (length va) (bmax (length vb) (length vx))))
    by bshape_cases.
  destruct (cdf_built self x g (length va) (length vb) (length vx)
              H D Dx (run_shape _ _ Ra) (run_shape _ _ Rb)
              (arg_tensor_shape (gamma.dtype self) x vx Vx) B2 B3)
    as (g' & E & _).
  unfold outcome. rewrite E.
  apply cdf_run; auto. now rewrite arg_tensor_run.
Qed.

(** [pdf] observed: the outcome of [log_pdf], with [exp] applied to every
    element when there is a value. *)
Lemma pdf_outcome (self : gamma.Gamma) (x : arg T) (g : graph T) :
  control_stack g = [] ->
  outcome (gamma.pdf self x) g =
  match outcome (gamma.log_pdf self x) g with
  | Ok v => Ok (map k_exp v)
  | Raise e => Raise e
  end.
Proof.
  intros H. unfold outcome. rewrite pdf_unfold.
  destruct (gamma.log_pdf self x g) as [[l g']|e] eqn:E; [|reflexivity].
  rewrite (regular_stack _ g g' l (regular_log_pdf self x) E), H.
  rewrite run_Unary. simpl. reflexivity.
Qed.

(** A mismatch of element types stops [log_pdf] and [log_cdf] while the
    graph is being built, whatever the graph and the distribution. *)
Lemma log_pdf_mismatch (self : gamma.Gamma) (x : arg T) (g : graph T) :
  arg_dtype x <> gamma.dtype self ->
  gamma.log_pdf self x g = Raise TypeMismatchError.
Proof.
  intros D. unfold gamma.log_pdf, ops.op_scope, ops.name_scope.
  cbv zeta. unfold bind at 1.
  destruct x as [v|t]; simpl in *; unfold bind; simpl;
    now rewrite same_dtype_mismatch by (simpl; congruence).
Qed.

Lemma log_cdf_mismatch (self : gamma.Gamma) (x : arg T) (g : graph T) :
  arg_dtype x <> gamma.dtype self ->
  gamma.log_cdf self x g = Raise TypeMismatchError.
Proof.
  intros D. unfold gamma.log_cdf, ops.op_scope, ops.name_scope.
  unfold bind at 1.
  destruct x as [v|t]; simpl in *; unfold bind; simpl;
    now rewrite same_dtype_mismatch by (simpl; congruence).
Qed.

Lemma same_dtype_pair_mismatch (a b : tensor T) (g : graph T) :
  dtype_of a <> dtype_of b ->
  contrib_tensor_util.assert_same_float_dtype [a; b] None g
    = Raise TypeMismatchError.
Proof.
  intros H. unfold contrib_tensor_util.assert_same_float_dtype, bind.
  simpl. apply dtype_eqb_neq in H. now rewrite H.
Qed.

End Outcomes.

(** ** Bounds on [ln 2] *)

Module LnTwo.
Local Open Scope R_scope.

Lemma exp_square_lower (q y : R) :
  0 <= q -> q <= exp y -> q * q <= exp (2 * y).
Proof.
  intros Hq H. replace (2 * y) with (y + y) by ring.
  rewrite exp_plus. nra.
Qed.

Lemma exp_one_plus (y : R) : 1 + y <= exp y.
Proof.
  destruct (Req_dec y 0) as [->|N].
  - rewrite exp_0. lra.
  - apply Rlt_le, exp_ineq1, N.
Qed.

Lemma exp_07 : 2 < exp (7 / 10).
Proof.
  pose proof (exp_one_plus (7 / 640)) as H0.
  assert (H1 : 1.02199 <= exp (7 / 320)).
  { replace (7 / 320) with (2 * (7 / 640)) by field.
    eapply Rle_trans; [|apply (exp_square_lower (1 + 7 / 640)); lra]. lra. }
  assert (H2 : 1.04446 <= exp (7 / 160)).
  { replace (7 / 160) with (2 * (7 / 320)) by field.
    eapply Rle_trans; [|apply (exp_square_lower 1.02199); lra]. lra. }
  assert (H3 : 1.09089 <= exp (7 / 80)).
  { replace (7 / 80) with (2 * (7 / 160)) by field.
    eapply Rle_trans; [|apply (exp_square_lower 1.04446); lra]. lra. }
  assert (H4 : 1.19004 <= exp (7 / 40)).
  { replace (7 / 40) with (2 * (7 / 80)) by field.
    eapply Rle_trans; [|apply (exp_square_lower 1.09089); lra]. lra. }
  assert (H5 : 1.41619 <= exp (7 / 20)).
  { replace (7 / 20) with (2 * (7 / 40)) by field.
    eapply Rle_trans; [|apply (exp_square_lower 1.19004); lra]. lra. }
  replace (7 / 10) with (2 * (7 / 20)) by field.
  eapply Rlt_le_trans; [|apply (exp_square_lower 1.41619); lra]. lra.
Qed.

Lemma exp_minus_069 : / 2 < exp (- (69 / 100)).
Proof.
  pose proof (exp_one_plus (- (69 / 12800))) as H0.
  assert (H1 : 0.98924 <= exp (- (69 / 6400))).
  { replace (- (69 / 6400)) with (2 * - (69 / 12800)) by field.
    eapply Rle_trans;
      [|apply (exp_square_lower (1 + - (69 / 12800))); lra]. lra. }
  assert (H2 : 0.97859 <= exp (- (69 / 3200))).
  { replace (- (69 / 3200)) with (2 * - (69 / 6400)) by field.
    eapply Rle_trans; [|apply (exp_square_lower 0.98924); lra]. lra. }
  assert (H3 : 0.95763 <= exp (- (69 / 1600))).
  { replace (- (69 / 1600)) with (2 * - (69 / 3200)) by field.
    eapply Rle_trans; [|apply (exp_square_lower 0.97859); lra]. lra. }
  assert (H4 : 0.91705 <= exp (- (69 / 800))).
  { replace (- (69 / 800)) with (2 * - (69 / 1600)) by field.
    eapply Rle_trans; [|apply (exp_square_lower 0.95763); lra]. lra. }
  assert (H5 : 0.84098 <= exp (- (69 / 400))).
  { replace (- (69 / 400)) with (2 * - (69 / 800)) by field.
    eapply Rle_trans; [|apply (exp_square_lower 0.91705); lra]. lra. }
  assert (H6 : 0.70724 <= exp (- (69 / 200))).
  { replace (- (69 / 200)) with (2 * - (69 / 400)) by field.
    eapply Rle_trans; [|apply (exp_square_lower 0.84098); lra]. lra. }
  replace (- (69 / 100)) with (2 * - (69 / 200)) by field.
  eapply Rlt_le_trans; [|apply (exp_square_lower 0.70724); lra]. lra.
Qed.

Lemma ln_2_upper : ln 2 < 7 / 10.
Proof.
  rewrite <- (ln_exp (7 / 10)). apply ln_increasing; [lra | exact exp_07].
Qed.

Lemma ln_2_lower : 69 / 100 < ln 2.
Proof.
  rewrite <- (ln_exp (69 / 100)). apply ln_increasing; [apply exp_pos|].
  pose proof exp_minus_069 as H. rewrite exp_Ropp in H.
  destruct (Rlt_le_dec (exp (69 / 100)) 2) as [L|L]; [exact L|].
  apply Rinv_le_contravar in L; lra.
Qed.

End LnTwo.

(** ** Distributions built from Python numbers *)

Section Examples.
Context {T : Type} {K : Kernels T}.

(** Python numbers of shapes that broadcast always give a distribution
    object; its parameters evaluate to the numbers given. *)
Lemma gamma_of_floats (va vb : list T) (name : string) (n : nat) :
  bshape (length va) (length vb) = Some n ->
  exists self g',
    gamma.__init__ (PyFloats va) (PyFloats vb) name new_graph
      = Ok (self, g') /\
    gamma.constructed self /\
    control_stack g' = [] /\
    run (gamma._alpha self) = Ok va /\
    run (gamma._beta self) = Ok vb /\
    gamma.dtype self = float32 /\
    gamma._alpha self = Const [] float32 va /\
    gamma._beta self = Const [] float32 vb /\
    gamma._name self = name /\
    created g' <> [].
Proof.
  intros B.
  destruct (init_ok (PyFloats va) (PyFloats vb) name new_graph va vb n)
    as (self & g' & E); try reflexivity; [exact B|].
  destruct (init_inv (PyFloats va) (PyFloats vb) name new_graph g' self
              eq_refl E)
    as (H' & _ & Da & _ & Ra & Rb & N & _ & _ & _ & (l & X & I & _) & _ & _
        & Ta & Tb).
  exists self, g'. repeat split; auto.
  - exists (PyFloats va), (PyFloats vb), name, new_graph, g'. now split.
  - intros Z. rewrite Z in X. destruct l; [exact I | discriminate X].
Qed.

Lemma convert_raises (x : arg T) (d : option dtype) (g : graph T) (e : exn) :
  ops.convert_to_tensor x d g = Raise e -> e = TypeMismatchError.
Proof.
  destruct x as [v|t]; simpl; [discriminate|].
  destruct d as [d|]; [|discriminate].
  destruct (dtype_eqb d (dtype_of t)); [discriminate|].
  unfold raise. congruence.
Qed.

Lemma binary_raises (f : binop) (a b : tensor T) (g : graph T) (e : exn) :
  math_ops.binary f a b g = Raise e -> e <> DomainError.
Proof.
  unfold math_ops.binary, raise, create_op.
  destruct (dtype_eqb _ _); [|congruence].
  destruct (get_shape a), (get_shape b); try discriminate.
  destruct (bshape _ _); [discriminate | congruence].
Qed.

Lemma operator_raises (f : binop) (a : tensor T) (y : arg T) (g : graph T)
    (e : exn) :
  math_ops.operator f a y g = Raise e -> e <> DomainError.
Proof.
  unfold math_ops.operator, bind.
  destruct (ops.convert_to_tensor y _ g) as [[t g']|e'] eqn:E.
  - apply binary_raises.
  - intros [= <-]. apply convert_raises in E. congruence.
Qed.

(** The constructor evaluates no assertion: whatever it is given, the
    exception it raises, if any, is not the failure of an assertion. *)
Lemma init_raises (alpha beta : arg T) (name : string) (g : graph T)
    (e : exn) :
  gamma.__init__ alpha beta name g = Raise e -> e <> DomainError.
Proof.
  unfold gamma.__init__, ops.op_scope, bind.
  destruct (ops.convert_to_tensor alpha None g) as [[ta g1]|e1] eqn:E1;
    [|intros [= <-]; apply convert_raises in E1; congruence].
  destruct (ops.convert_to_tensor beta None g1) as [[tb g2]|e2] eqn:E2;
    [|intros [= <-]; apply convert_raises in E2; congruence].
  unfold contrib_tensor_util.assert_same_float_dtype, bind. simpl.
  destruct (dtype_eqb (dtype_of ta) (dtype_of tb));
    [|unfold raise; congruence].
  unfold ret, ops.control_dependencies. simpl.
  match goal with
  | |- context [math_ops.operator Div ta (Tensor tb) ?g0] =>
      destruct (math_ops.operator Div ta (Tensor tb) g0)
        as [[m g3]|e3] eqn:E3;
      [|intros [= <-]; now apply operator_raises in E3]
  end.
  match goal with
  | |- context [math_ops.operator Div ta ?sq ?g0] =>
      destruct (math_ops.operator Div ta sq g0) as [[v g4]|e4] eqn:E4;
      [discriminate|intros [= <-]; now apply operator_raises in E4]
  end.
Qed.

End Examples.

(* ================================================================== *)
(** * The specification of the class, statement by statement *)

(** ** The regularized incomplete gamma function

    [Rigamma] is defined by conditions; this part shows that a function
    meets them, that it is the only one, and derives what the class relies
    on: the values lie in [0, 1], grow with the argument, start at 0 and
    tend to 1. *)

Module IncompleteGamma.
Import RealKernels.
Local Open Scope R_scope.

Lemma exp_le (x y : R) : x <= y -> exp x <= exp y.
Proof.
  intros [H| ->]; [left; now apply exp_increasing | right; reflexivity].
Qed.

Lemma gamma_integrand_pos (a t : R) : 0 < gamma_integrand a t.
Proof.
  unfold gamma_integrand, Rpower. apply Rmult_lt_0_compat; apply exp_pos.
Qed.

Lemma exp_opp_derivative (k x : R) :
  derivable_pt_lim (fun z => exp (- (k * z))) x (- k * exp (- (k * x))).
Proof.
  assert (D1 : derivable_pt_lim (fun z => - (k * z)) x (- k)).
  { replace (- k) with (- (k * 1)) by ring.
    apply (derivable_pt_lim_opp (mult_real_fct k id) x (k * 1)).
    apply derivable_pt_lim_scal, derivable_pt_lim_id. }
  replace (- k * exp (- (k * x))) with (exp (- (k * x)) * - k) by ring.
  exact (derivable_pt_lim_comp (fun z => - (k * z)) exp x _ _ D1
           (derivable_pt_lim_exp _)).
Qed.

Lemma power_exp_derivative (a x : R) :
  0 < x ->
  derivable_pt_lim (fun z => Rpower z a * exp (- z)) x
    (a * gamma_integrand a x - Rpower x a * exp (- x)).
Proof.
  intros Hx.
  assert (D2 : derivable_pt_lim (fun z => exp (- z)) x (- exp (- x))).
  { apply derivable_pt_lim_ext with (f := fun z => exp (- (1 * z))).
    - intros z. now rewrite Rmult_1_l.
    - replace (- exp (- x)) with (- 1 * exp (- (1 * x)))
        by (rewrite Rmult_1_l; ring).
      apply exp_opp_derivative. }
  unfold gamma_integrand.
  replace (a * (Rpower x (a - 1) * exp (- x)) - Rpower x a * exp (- x))
    with (a * Rpower x (a - 1) * exp (- x) + Rpower x a * - exp (- x))
    by ring.
  exact (derivable_pt_lim_mult (fun z => Rpower z a) (fun z => exp (- z)) x
           _ _ (derivable_pt_lim_power x a Hx) D2).
Qed.

Lemma Rpower_small (a eps : R) :
  0 < a -> 0 < eps ->
  exists d, 0 < d /\ forall t, 0 < t -> t < d -> Rpower t a < eps.
Proof.
  intros Ha He. exists (Rpower eps (/ a)). split; [apply exp_pos|].
  intros t Ht Hlt.
  replace eps with (Rpower (Rpower eps (/ a)) a).
  - apply Rlt_Rpower_l; lra.
  - rewrite Rpower_mult, Rinv_l by lra. now apply Rpower_1.
Qed.

Lemma raised_integrand_continuous (a : R) :
  0 < a -> continuity (raised_integrand a).
Proof.
  intros Ha t. destruct (Rtotal_order t 0) as [N | [-> | P]].
  - apply continuity_pt_locally_ext with (f := fct_cte 0) (a := - t).
    + lra.
    + intros y Hy. unfold fct_cte, raised_integrand.
      destruct (Rle_dec y 0) as [|n]; [reflexivity|].
      unfold Rdist in Hy. apply Rabs_def2 in Hy. lra.
    + apply derivable_continuous_pt. exists 0.
      apply derivable_pt_lim_const.
  - intros eps He.
    destruct (Rpower_small a eps Ha He) as (d & Hd & S).
    exists d. split; [exact Hd|].
    intros x [_ Hx]. simpl in *. unfold Rdist in *.
    rewrite Rminus_0_r in Hx.
    unfold raised_integrand.
    destruct (Rle_dec 0 0) as [_|n]; [|lra].
    destruct (Rle_dec x 0) as [|n].
    + rewrite Rminus_0_r, Rabs_R0. exact He.
    + assert (Px : 0 < x) by lra.
      rewrite Rabs_pos_eq in Hx by lra.
      rewrite Rminus_0_r.
      pose proof (S x Px Hx) as B.
      assert (0 < Rpower x a) by apply exp_pos.
      assert (E : exp (- x) <= 1).
      { rewrite <- exp_0. apply exp_le. lra. }
      pose proof (exp_pos (- x)).
      rewrite Rabs_pos_eq by (apply Rmult_le_pos; lra).
      apply Rle_lt_trans with (Rpower x a * 1); [|lra].
      apply Rmult_le_compat_l; lra.
  - apply continuity_pt_locally_ext
      with (f := fun z => Rpower z a * exp (- z)) (a := t).
    + exact P.
    + intros y Hy. unfold raised_integrand.
      destruct (Rle_dec y 0) as [L|]; [|reflexivity].
      unfold Rdist in Hy. apply Rabs_def2 in Hy. lra.
    + apply derivable_continuous_pt. eexists.
      apply (power_exp_derivative a t P).
Qed.

Lemma antiderivative_restrict (f F : R -> R) (a b c : R) :
  antiderivative f F a b -> a <= c <= b -> antiderivative f F a c.
Proof.
  intros [A _] Hc. split; [|tauto].
  intros x Hx. apply A. lra.
Qed.

Lemma antiderivative_at (f F : R -> R) (a b x : R) :
  antiderivative f F a b -> a <= x <= b -> derivable_pt_lim F x (f x).
Proof.
  intros [A _] Hx. destruct (A x Hx) as [pr E].
  apply (derive_pt_eq_1 F x (f x) pr). now symmetry.
Qed.

(** A function continuous on the whole line has a primitive on the
    non-negative numbers that vanishes at 0. *)
Lemma primitive_from_zero (f : R -> R) :
  continuity f ->
  exists F, F 0 = 0 /\ forall x, 0 <= x -> derivable_pt_lim F x (f x).
Proof.
  intros C.
  pose (F := fun x =>
    match Rle_dec (-1) (x + 1) with
    | left L =>
        proj1_sig (@RiemannInt_P30 f (-1) (x + 1) L (fun y _ => C y)) x
        - proj1_sig (@RiemannInt_P30 f (-1) (x + 1) L (fun y _ => C y)) 0
    | right _ => 0
    end).
  exists F. split.
  - unfold F. destruct (Rle_dec (-1) (0 + 1)); lra.
  - intros x0 Hx0.
    assert (L0 : -1 <= x0 + 2) by lra.
    destruct (@RiemannInt_P30 f (-1) (x0 + 2) L0 (fun y _ => C y))
      as [F0 A0].
    apply derivable_pt_lim_locally_ext
      with (f := fun z => F0 z - F0 0) (a := x0 - / 2) (b := x0 + / 2).
    + lra.
    + intros z Hz. unfold F.
      destruct (Rle_dec (-1) (z + 1)) as [L|n]; [|lra].
      destruct (@RiemannInt_P30 f (-1) (z + 1) L (fun y _ => C y))
        as [Fz Az]. simpl.
      assert (R0 : antiderivative f F0 (-1) (z + 1))
        by (apply (antiderivative_restrict f F0 (-1) (x0 + 2)); [exact A0|lra]).
      destruct (antiderivative_Ucte f Fz F0 (-1) (z + 1) Az R0) as [c Hc].
      rewrite (Hc z) by lra. rewrite (Hc 0) by lra. ring.
    + pose proof (antiderivative_at f F0 (-1) (x0 + 2) x0 A0
                    ltac:(lra)) as D.
      intros eps He. destruct (D eps He) as [d Hd]. exists d.
      intros h Hh Hlt.
      replace (F0 (x0 + h) - F0 0 - (F0 x0 - F0 0))
        with (F0 (x0 + h) - F0 x0) by ring.
      now apply Hd.
Qed.

(** The lower incomplete gamma function exists for every positive shape. *)
Lemma lower_gamma_exists (a : R) :
  0 < a -> exists G, is_lower_gamma a G.
Proof.
  intros Ha.
  destruct (primitive_from_zero (raised_integrand a)
              (raised_integrand_continuous a Ha)) as (F & F0 & DF).
  pose (G := fun x =>
    if Rle_dec x 0 then 0 else (Rpower x a * exp (- x) + F x) / a).
  exists G. split; [|split].
  - intros x Hx. unfold G. destruct (Rle_dec x 0); [reflexivity|lra].
  - assert (CF : continuity_pt F 0).
    { apply derivable_continuous_pt. exists (raised_integrand a 0).
      apply DF. lra. }
    pose proof (raised_integrand_continuous a Ha 0) as CH.
    assert (H0 : raised_integrand a 0 = 0).
    { unfold raised_integrand. destruct (Rle_dec 0 0); [reflexivity|lra]. }
    assert (G0 : G 0 = 0).
    { unfold G. destruct (Rle_dec 0 0); [reflexivity|lra]. }
    intros eps He.
    assert (He' : eps * a / 2 > 0).
    { apply Rlt_gt. apply Rmult_lt_0_compat; [|lra].
      now apply Rmult_lt_0_compat. }
    destruct (CF _ He') as (d1 & Hd1 & B1).
    destruct (CH _ He') as (d2 & Hd2 & B2).
    exists (Rmin d1 d2). split; [now apply Rmin_glb_lt|].
    intros x [[_ Nx] Hx]. simpl in *. unfold Rdist in *.
    rewrite G0, Rminus_0_r. unfold G.
    destruct (Rle_dec x 0) as [|n]; [now rewrite Rabs_R0|].
    assert (X1 : Rabs (x - 0) < d1)
      by (eapply Rlt_le_trans; [exact Hx|apply Rmin_l]).
    assert (X2 : Rabs (x - 0) < d2)
      by (eapply Rlt_le_trans; [exact Hx|apply Rmin_r]).
    assert (Dx : D_x no_cond 0 x) by (split; [exact I|exact Nx]).
    specialize (B1 x (conj Dx X1)). specialize (B2 x (conj Dx X2)).
    rewrite F0, Rminus_0_r in B1. rewrite H0, Rminus_0_r in B2.
    unfold raised_integrand in B2.
    destruct (Rle_dec x 0) as [|_]; [lra|].
    unfold Rdiv. rewrite Rabs_mult, (Rabs_pos_eq (/ a))
      by (left; now apply Rinv_0_lt_compat).
    apply Rle_lt_trans
      with ((Rabs (Rpower x a * exp (- x)) + Rabs (F x)) * / a).
    + apply Rmult_le_compat_r; [left; now apply Rinv_0_lt_compat|].
      apply Rabs_triang.
    + apply Rlt_le_trans with ((eps * a / 2 + eps * a / 2) * / a).
      * apply Rmult_lt_compat_r; [now apply Rinv_0_lt_compat|lra].
      * right. field. lra.
  - intros x Hx.
    apply derivable_pt_lim_locally_ext
      with (f := fun z => / a * (Rpower z a * exp (- z) + F z))
           (a := x / 2) (b := x + 1).
    + lra.
    + intros z Hz. unfold G. destruct (Rle_dec z 0); [lra|].
      unfold Rdiv. ring.
    + replace (gamma_integrand a x)
        with (/ a * ((a * gamma_integrand a x - Rpower x a * exp (- x))
                     + raised_integrand a x)).
      * apply (derivable_pt_lim_scal
                 (fun z => Rpower z a * exp (- z) + F z) (/ a) x).
        apply (derivable_pt_lim_plus
                 (fun z => Rpower z a * exp (- z)) F x).
        -- now apply power_exp_derivative.
        -- apply DF. lra.
      * unfold raised_integrand. destruct (Rle_dec x 0); [lra|].
        field. lra.
Qed.

Section Monotone.
Variables (a : R) (G : R -> R).
Hypothesis LG : is_lower_gamma a G.

Lemma lower_gamma_increasing (x y : R) : 0 < x -> x < y -> G x < G y.
Proof.
  intros Hx Hxy. destruct LG as (_ & _ & D).
  destruct (MVT_cor2 G (gamma_integrand a) x y Hxy) as (c & E & Hc).
  - intros c Hc. apply D. lra.
  - pose proof (gamma_integrand_pos a c) as P.
    assert (0 < gamma_integrand a c * (y - x))
      by (apply Rmult_lt_0_compat; lra).
    lra.
Qed.

Lemma lower_gamma_nonneg (y : R) : 0 <= G y.
Proof.
  destruct (Rle_dec y 0) as [L|N].
  - destruct LG as (Z & _). rewrite (Z y L). lra.
  - assert (Hy : 0 < y) by lra.
    destruct (Rle_dec 0 (G y)) as [|Neg]; [assumption|exfalso].
    destruct LG as (Z & C & _).
    assert (He : - G y > 0) by lra.
    destruct (C _ He) as (d & Hd & B).
    pose (x := Rmin (d / 2) (y / 2)).
    assert (Px : 0 < x) by (apply Rmin_glb_lt; lra).
    assert (Xd : x <= d / 2) by apply Rmin_l.
    assert (Xy : x <= y / 2) by apply Rmin_r.
    assert (Dx : D_x no_cond 0 x) by (split; [exact I|lra]).
    assert (Bd : Rabs (x - 0) < d)
      by (rewrite Rminus_0_r, Rabs_pos_eq; lra).
    specialize (B x (conj Dx Bd)). simpl in B. unfold Rdist in B.
    rewrite (Z 0) in B by lra. rewrite Rminus_0_r in B.
    apply Rabs_def2 in B.
    pose proof (lower_gamma_increasing x y Px ltac:(lra)).
    lra.
Qed.

Lemma lower_gamma_positive (y : R) : 0 < y -> 0 < G y.
Proof.
  intros Hy.
  pose proof (lower_gamma_nonneg (y / 2)).
  pose proof (lower_gamma_increasing (y / 2) y ltac:(lra) ltac:(lra)).
  lra.
Qed.

Lemma lower_gamma_monotone (x y : R) : x <= y -> G x <= G y.
Proof.
  intros Hxy. destruct (Rle_dec x 0) as [L|N].
  - destruct LG as (Z & _). rewrite (Z x L). apply lower_gamma_nonneg.
  - destruct Hxy as [H| ->]; [|lra].
    left. apply lower_gamma_increasing; lra.
Qed.

End Monotone.

(** Beyond 1 the integrand lies under a multiple of [exp (- t / 2)]. *)
Lemma gamma_integrand_tail (a : R) :
  0 < a ->
  exists C, 0 < C /\
    forall t, 1 <= t -> gamma_integrand a t <= C * exp (- (/ 2 * t)).
Proof.
  intros Ha.
  pose (b := a + 1).
  assert (Hb : 0 < b) by (unfold b; lra).
  exists (exp (b * (ln (2 * b) - 1))). split; [apply exp_pos|].
  intros t Ht. unfold gamma_integrand.
  assert (P1 : Rpower t (a - 1) <= Rpower t b)
    by (apply Rle_Rpower; unfold b; lra).
  assert (P2 : Rpower t b <= exp (/ 2 * t + b * (ln (2 * b) - 1))).
  { unfold Rpower. apply exp_le.
    assert (Q : 0 < t / (2 * b)) by (apply Rdiv_lt_0_compat; lra).
    pose proof (exp_ineq1_le (ln (t / (2 * b)))) as I.
    rewrite exp_ln in I by exact Q.
    unfold Rdiv in I. rewrite ln_mult in I
      by (try lra; apply Rinv_0_lt_compat; lra).
    rewrite ln_Rinv in I by lra.
    assert (E : / 2 * t + b * (ln (2 * b) - 1)
                = b * (t * / (2 * b) + ln (2 * b) - 1)) by (field; lra).
    rewrite E. apply Rmult_le_compat_l; lra. }
  pose proof (exp_pos (- t)).
  apply Rle_trans
    with (exp (/ 2 * t + b * (ln (2 * b) - 1)) * exp (- t)).
  - apply Rmult_le_compat_r; lra.
  - rewrite <- !exp_plus. apply exp_le. lra.
Qed.

Section Bounded.
Variables (a : R) (G : R -> R).
Hypothesis a_pos : 0 < a.
Hypothesis LG : is_lower_gamma a G.

Lemma lower_gamma_bounded : exists B, forall x, G x <= B.
Proof.
  destruct (gamma_integrand_tail a a_pos) as (C & HC & T).
  exists (G 1 + 2 * C * exp (- (/ 2 * 1))).
  intros x.
  pose proof (exp_pos (- (/ 2 * 1))) as E1.
  assert (0 < 2 * C * exp (- (/ 2 * 1)))
    by (apply Rmult_lt_0_compat; lra).
  destruct (Rle_dec x 1) as [L|N].
  - pose proof (lower_gamma_monotone a G LG x 1 L). lra.
  - assert (Hx : 1 < x) by lra.
    destruct LG as (_ & _ & D).
    destruct (MVT_cor2
                (fun t => G t + 2 * C * exp (- (/ 2 * t)))
                (fun t => gamma_integrand a t
                          + 2 * C * (- / 2 * exp (- (/ 2 * t))))
                1 x Hx) as (c & E & Hc).
    + intros c Hc.
      apply (derivable_pt_lim_plus G
               (fun t => 2 * C * exp (- (/ 2 * t))) c).
      * apply D. lra.
      * apply (derivable_pt_lim_scal
                 (fun t => exp (- (/ 2 * t))) (2 * C) c).
        apply exp_opp_derivative.
    + pose proof (T c ltac:(lra)) as Tc.
      pose proof (exp_pos (- (/ 2 * x))) as Ex.
      assert (0 < 2 * C * exp (- (/ 2 * x)))
        by (apply Rmult_lt_0_compat; lra).
      assert (S : (gamma_integrand a c
                   + 2 * C * (- / 2 * exp (- (/ 2 * c)))) * (x - 1) <= 0).
      { replace 0 with (0 * (x - 1)) by ring.
        apply Rmult_le_compat_r; lra. }
      lra.
Qed.

(** The complete integral exists: the lower incomplete gamma function has
    a limit at infinity. *)
Lemma lower_gamma_converges : exists l, limit_at_infinity G l.
Proof.
  destruct lower_gamma_bounded as (B & HB).
  assert (Gr : Un_growing (fun n => G (INR n))).
  { intros n. apply (lower_gamma_monotone a G LG).
    rewrite S_INR. lra. }
  assert (Ub : has_ub (fun n => G (INR n))).
  { exists B. intros y (n & ->). apply HB. }
  destruct (growing_cv _ Gr Ub) as (l & Hl).
  exists l. intros eps He.
  destruct (Hl eps He) as (N & HN).
  exists (INR N). intros x Hx.
  specialize (HN N (Nat.le_refl N)). unfold Rdist in HN.
  apply Rabs_def2 in HN.
  pose proof (lower_gamma_monotone a G LG (INR N) x Hx) as M1.
  destruct (INR_unbounded x) as (n & Hn).
  pose proof (lower_gamma_monotone a G LG x (INR n) ltac:(lra)) as M2.
  pose proof (growing_ineq _ l Gr Hl n) as M3. simpl in M3.
  apply Rabs_def1; lra.
Qed.

(** Every value lies under the limit, which is positive. *)
Lemma lower_gamma_below_limit (l x : R) :
  limit_at_infinity G l -> G x <= l.
Proof.
  intros Hl. destruct (Rle_dec (G x) l) as [|N]; [assumption|exfalso].
  assert (He : 0 < G x - l) by lra.
  destruct (Hl _ He) as (M & HM).
  specialize (HM (Rmax M x) (Rmax_l M x)). apply Rabs_def2 in HM.
  pose proof (lower_gamma_monotone a G LG x (Rmax M x) (Rmax_r M x)).
  lra.
Qed.

Lemma limit_positive (l : R) : limit_at_infinity G l -> 0 < l.
Proof.
  intros Hl.
  pose proof (lower_gamma_positive a G LG 1 ltac:(lra)).
  pose proof (lower_gamma_below_limit l 1 Hl). lra.
Qed.

End Bounded.

Lemma limit_at_infinity_unique (f : R -> R) (l1 l2 : R) :
  limit_at_infinity f l1 -> limit_at_infinity f l2 -> l1 = l2.
Proof.
  intros H1 H2.
  destruct (Req_dec l1 l2) as [|N]; [assumption|exfalso].
  assert (He : 0 < Rabs (l1 - l2) / 2).
  { assert (0 < Rabs (l1 - l2)) by (apply Rabs_pos_lt; lra). lra. }
  destruct (H1 _ He) as (M1 & B1). destruct (H2 _ He) as (M2 & B2).
  specialize (B1 (Rmax M1 M2) (Rmax_l _ _)).
  specialize (B2 (Rmax M1 M2) (Rmax_r _ _)).
  set (y := f (Rmax M1 M2)) in *.
  assert (T : Rabs (l1 - l2) <= Rabs (y - l1) + Rabs (y - l2)).
  { replace (l1 - l2) with ((y - l2) - (y - l1)) by ring.
    eapply Rle_trans; [apply Rabs_triang|].
    rewrite Rabs_Ropp. lra. }
  lra.
Qed.

(** The three conditions determine the function. *)
Lemma is_lower_gamma_unique (a : R) (G1 G2 : R -> R) :
  is_lower_gamma a G1 -> is_lower_gamma a G2 -> forall x, G1 x = G2 x.
Proof.
  intros (Z1 & C1 & D1) (Z2 & C2 & D2) x.
  destruct (Rle_dec x 0) as [L|N]; [now rewrite Z1, Z2|].
  assert (Hx : 0 < x) by lra.
  assert (K : forall u v, 0 < u -> u < v -> G1 v - G2 v = G1 u - G2 u).
  { intros u v Hu Huv.
    destruct (MVT_cor2 (fun t => G1 t - G2 t) (fun _ => 0) u v Huv)
      as (c & E & _).
    - intros c Hc.
      replace 0 with (gamma_integrand a c - gamma_integrand a c) by ring.
      apply (derivable_pt_lim_minus G1 G2 c); [apply D1|apply D2]; lra.
    - lra. }
  destruct (Req_dec (G1 x) (G2 x)) as [|Ne]; [assumption|exfalso].
  assert (He : Rabs (G1 x - G2 x) / 2 > 0).
  { assert (0 < Rabs (G1 x - G2 x)) by (apply Rabs_pos_lt; lra). lra. }
  destruct (C1 _ He) as (d1 & Hd1 & B1).
  destruct (C2 _ He) as (d2 & Hd2 & B2).
  pose (u := Rmin (Rmin d1 d2 / 2) (x / 2)).
  assert (Pm : 0 < Rmin d1 d2) by (now apply Rmin_glb_lt).
  assert (Pu : 0 < u) by (apply Rmin_glb_lt; lra).
  assert (U1 : u <= Rmin d1 d2 / 2) by apply Rmin_l.
  assert (U2 : u <= x / 2) by apply Rmin_r.
  pose proof (Rmin_l d1 d2). pose proof (Rmin_r d1 d2).
  assert (Du : D_x no_cond 0 u) by (split; [exact I|lra]).
  assert (A : Rabs (u - 0) < d1 /\ Rabs (u - 0) < d2)
    by (rewrite Rminus_0_r, Rabs_pos_eq; lra).
  specialize (B1 u (conj Du (proj1 A))).
  specialize (B2 u (conj Du (proj2 A))).
  simpl in B1, B2. unfold Rdist in B1, B2.
  rewrite (Z1 0), Rminus_0_r in B1 by lra.
  rewrite (Z2 0), Rminus_0_r in B2 by lra.
  pose proof (K u x Pu ltac:(lra)) as E.
  assert (T : Rabs (G1 x - G2 x) <= Rabs (G1 u) + Rabs (G2 u)).
  { rewrite E. unfold Rminus. eapply Rle_trans; [apply Rabs_triang|].
    rewrite Rabs_Ropp. lra. }
  lra.
Qed.

(** ** The facts about [lower_gamma], [Gamma_integral] and [Rigamma] *)

Lemma lower_gamma_spec (a : R) : 0 < a -> is_lower_gamma a (lower_gamma a).
Proof.
  intros Ha. unfold lower_gamma. apply epsilon_spec.
  now apply lower_gamma_exists.
Qed.

Lemma Gamma_integral_spec (a : R) :
  0 < a -> limit_at_infinity (lower_gamma a) (Gamma_integral a).
Proof.
  intros Ha. unfold Gamma_integral. apply epsilon_spec.
  apply (lower_gamma_converges a (lower_gamma a) Ha (lower_gamma_spec a Ha)).
Qed.

Lemma Gamma_integral_pos (a : R) : 0 < a -> 0 < Gamma_integral a.
Proof.
  intros Ha.
  apply (limit_positive a (lower_gamma a) (lower_gamma_spec a Ha)).
  now apply Gamma_integral_spec.
Qed.

Lemma Rigamma_range (a u : R) : 0 < a -> 0 <= Rigamma a u <= 1.
Proof.
  intros Ha. unfold Rigamma.
  pose proof (Gamma_integral_pos a Ha) as P.
  pose proof (lower_gamma_nonneg a _ (lower_gamma_spec a Ha) u) as N.
  pose proof (lower_gamma_below_limit a _ (lower_gamma_spec a Ha)
                (Gamma_integral a) u (Gamma_integral_spec a Ha)) as B.
  split.
  - apply Rmult_le_pos; [exact N|left; now apply Rinv_0_lt_compat].
  - apply Rmult_le_reg_r with (Gamma_integral a); [exact P|].
    unfold Rdiv. rewrite Rmult_assoc, Rinv_l by lra. lra.
Qed.

Lemma Rigamma_monotone (a u v : R) :
  0 < a -> u <= v -> Rigamma a u <= Rigamma a v.
Proof.
  intros Ha Huv. unfold Rigamma, Rdiv.
  apply Rmult_le_compat_r.
  - left. apply Rinv_0_lt_compat. now apply Gamma_integral_pos.
  - now apply (lower_gamma_monotone a _ (lower_gamma_spec a Ha)).
Qed.

Lemma Rigamma_nonpositive (a u : R) : 0 < a -> u <= 0 -> Rigamma a u = 0.
Proof.
  intros Ha Hu. unfold Rigamma.
  destruct (lower_gamma_spec a Ha) as (Z & _).
  rewrite (Z u Hu). unfold Rdiv. ring.
Qed.

Lemma Rigamma_positive (a u : R) : 0 < a -> 0 < u -> 0 < Rigamma a u.
Proof.
  intros Ha Hu. unfold Rigamma.
  apply Rdiv_lt_0_compat.
  - now apply (lower_gamma_positive a _ (lower_gamma_spec a Ha)).
  - now apply Gamma_integral_pos.
Qed.

(** The function tends to 1: it is a distribution function. *)
Lemma Rigamma_limit (a : R) :
  0 < a -> limit_at_infinity (Rigamma a) 1.
Proof.
  intros Ha eps He.
  pose proof (Gamma_integral_pos a Ha) as P.
  assert (He' : 0 < eps * Gamma_integral a)
    by (now apply Rmult_lt_0_compat).
  destruct (Gamma_integral_spec a Ha _ He') as (M & HM).
  exists M. intros x Hx. specialize (HM x Hx).
  unfold Rigamma.
  replace (lower_gamma a x / Gamma_integral a - 1)
    with ((lower_gamma a x - Gamma_integral a) * / Gamma_integral a)
    by (field; lra).
  rewrite Rabs_mult, (Rabs_pos_eq (/ Gamma_integral a))
    by (left; now apply Rinv_0_lt_compat).
  apply Rmult_lt_reg_r with (Gamma_integral a); [exact P|].
  rewrite Rmult_assoc, Rinv_l by lra. lra.
Qed.

(** At shape one the function is the exponential distribution function. *)
Lemma lower_gamma_one (x : R) :
  0 <= x -> lower_gamma 1 x = 1 - exp (- x).
Proof.
  intros Hx.
  pose (E := fun t : R => if Rle_dec t 0 then 0 else 1 - exp (- t)).
  assert (LE : is_lower_gamma 1 E).
  { split; [|split].
    - intros t Ht. unfold E. destruct (Rle_dec t 0); [reflexivity|lra].
    - assert (C : continuity_pt (fun t => 1 - exp (- (1 * t))) 0).
      { apply derivable_continuous_pt. eexists.
        apply (derivable_pt_lim_minus (fct_cte 1)
                 (fun t => exp (- (1 * t))) 0).
        - apply derivable_pt_lim_const.
        - apply exp_opp_derivative. }
      intros eps He. destruct (C eps He) as (d & Hd & B).
      exists d. split; [exact Hd|].
      intros t Ht. specialize (B t Ht). simpl in *. unfold Rdist in *.
      rewrite Rmult_0_r, Ropp_0, exp_0, Rmult_1_l in B.
      unfold E. destruct (Rle_dec 0 0) as [_|]; [|lra].
      destruct (Rle_dec t 0) as [|n].
      + rewrite Rminus_0_r, Rabs_R0. lra.
      + rewrite Rminus_0_r. now rewrite Rminus_diag, Rminus_0_r in B.
    - intros t Ht.
      apply derivable_pt_lim_locally_ext
        with (f := fun z => 1 - exp (- (1 * z))) (a := t / 2) (b := t + 1).
      + lra.
      + intros z Hz. unfold E. destruct (Rle_dec z 0); [lra|].
        now rewrite Rmult_1_l.
      + unfold gamma_integrand. rewrite Rminus_diag.
        unfold Rpower. rewrite Rmult_0_l, exp_0, Rmult_1_l.
        replace (exp (- t)) with (0 - - 1 * exp (- (1 * t)))
          by (rewrite Rmult_1_l; ring).
        apply (derivable_pt_lim_minus (fct_cte 1)
                 (fun z => exp (- (1 * z))) t).
        * apply derivable_pt_lim_const.
        * apply exp_opp_derivative. }
  rewrite (is_lower_gamma_unique 1 _ E
             (lower_gamma_spec 1 ltac:(lra)) LE x).
  unfold E. destruct (Rle_dec x 0) as [L|]; [|reflexivity].
  replace x with 0 by lra. rewrite Ropp_0, exp_0. ring.
Qed.

Lemma Gamma_integral_one : Gamma_integral 1 = 1.
Proof.
  apply (limit_at_infinity_unique (lower_gamma 1)).
  - apply Gamma_integral_spec. lra.
  - intros eps He.
    exists (Rmax 0 (- ln eps) + 1). intros x Hx.
    pose proof (Rmax_l 0 (- ln eps)). pose proof (Rmax_r 0 (- ln eps)).
    rewrite lower_gamma_one by lra.
    replace (1 - exp (- x) - 1) with (- exp (- x)) by ring.
    rewrite Rabs_Ropp, Rabs_pos_eq by (left; apply exp_pos).
    rewrite <- (exp_ln eps He). apply exp_increasing. lra.
Qed.

Lemma Rigamma_one (x : R) : 0 <= x -> Rigamma 1 x = 1 - exp (- x).
Proof.
  intros Hx. unfold Rigamma.
  rewrite Gamma_integral_one, lower_gamma_one by exact Hx.
  unfold Rdiv. now rewrite Rinv_1, Rmult_1_r.
Qed.

End IncompleteGamma.

(** C8.  Over the real numbers, with the regularized lower incomplete gamma
    function for [igamma]: for a distribution object, at every batch
    position where [alpha] and [beta] are positive and the arguments satisfy
    [0 < x1 <= x2], [cdf] evaluates, its value at [x1] is at most its value
    at [x2], and both lie in [0, 1]. *)
Theorem cdf_monotone_bounded :
  forall (self : gamma.Gamma) (x1 x2 : arg R) (g1 g2 : graph R)
         (va vb v1 v2 : list R) (n : nat),
    gamma.constructed self ->
    control_stack g1 = [] ->
    control_stack g2 = [] ->
    run (K := RealKernels.real) (gamma.alpha self) = Ok va ->
    run (K := RealKernels.real) (gamma.beta self) = Ok vb ->
    arg_value (K := RealKernels.real) x1 = Ok v1 ->
    arg_value (K := RealKernels.real) x2 = Ok v2 ->
    arg_fits x1 (gamma.dtype self) = true ->
    arg_fits x2 (gamma.dtype self) = true ->
    bshape (bmax (length va) (length vb)) (length v1) = Some n ->
    bshape (bmax (length va) (length vb)) (length v2) = Some n ->
    exists r1 r2,
      outcome (K := RealKernels.real) (gamma.cdf self x1) g1 = Ok r1 /\
      outcome (K := RealKernels.real) (gamma.cdf self x2) g2 = Ok r2 /\
      length r1 = n /\ length r2 = n /\
      forall i ea eb e1 e2,
        bnth va i = Some ea -> bnth vb i = Some eb ->
        bnth v1 i = Some e1 -> bnth v2 i = Some e2 ->
        (0 < ea)%R -> (0 < eb)%R -> (0 < e1)%R -> (e1 <= e2)%R ->
        exists c1 c2,
          bnth r1 i = Some c1 /\ bnth r2 i = Some c2 /\
          (c1 <= c2)%R /\ (0 <= c1 <= 1)%R /\ (0 <= c2 <= 1)%R.
Proof.
  intros self x1 x2 g1 g2 va vb v1 v2 n C H1 H2 Ra Rb V1 V2 F1 F2 B1 B2.
  destruct (cdf_outcome (K := RealKernels.real)
              self x1 g1 va vb v1 n C H1 Ra Rb V1 F1 B1)
    as (r1 & R1 & L1 & P1).
  destruct (cdf_outcome (K := RealKernels.real)
              self x2 g2 va vb v2 n C H2 Ra Rb V2 F2 B2)
    as (r2 & R2 & L2 & P2).
  exists r1, r2. repeat split; auto.
  intros i ea eb e1 e2 Ha Hb He1 He2 Pa Pb Pe1 Le.
  exists (RealKernels.Rigamma ea (eb * e1))%R,
         (RealKernels.Rigamma ea (eb * e2))%R.
  assert (eb * e1 <= eb * e2)%R by (apply Rmult_le_compat_l; lra).
  split; [exact (P1 i ea eb e1 Ha Hb He1)|].
  split; [exact (P2 i ea eb e2 Ha Hb He2)|].
  split; [now apply IncompleteGamma.Rigamma_monotone|].
  split; now apply IncompleteGamma.Rigamma_range.
Qed.

Lemma cdf_monotone_bounded_witness :
  exists (self : gamma.Gamma) (r1 r2 : list R) (c1 c2 : R),
    gamma.constructed self /\
    run (K := RealKernels.real) (gamma.alpha self) = Ok [3%R] /\
    run (K := RealKernels.real) (gamma.beta self) = Ok [2%R] /\
    outcome (K := RealKernels.real)
      (gamma.cdf self (PyFloats [1%R])) new_graph = Ok r1 /\
    outcome (K := RealKernels.real)
      (gamma.cdf self (PyFloats [3%R])) new_graph = Ok r2 /\
    bnth r1 0 = Some c1 /\ bnth r2 0 = Some c2 /\
    (c1 <= c2)%R /\ (0 <= c1 <= 1)%R /\ (0 <= c2 <= 1)%R.
Proof.
  destruct (gamma_of_floats (K := RealKernels.real)
              [3%R] [2%R] "Gamma"%string 1 eq_refl)
    as (self & g' & E & C & H & Ra & Rb & D & _).
  destruct (cdf_monotone_bounded
              self (PyFloats [1%R]) (PyFloats [3%R]) new_graph new_graph
              [3%R] [2%R] [1%R] [3%R] 1 C eq_refl eq_refl Ra Rb
              eq_refl eq_refl eq_refl eq_refl eq_refl eq_refl)
    as (r1 & r2 & R1 & R2 & _ & _ & P).
  destruct (P 0%nat 3%R 2%R 1%R 3%R eq_refl eq_refl eq_refl eq_refl
              ltac:(lra) ltac:(lra) ltac:(lra) ltac:(lra))
    as (c1 & c2 & X1 & X2 & Le & In1 & In2).
  exists self, r1, r2, c1, c2. repeat split; tauto.
Defined.

Import RealKernels.
#[local] Existing Instance real.

Lemma positive_one : forallb (Rless 0) [1%R] = true.
Proof. simpl. rewrite RealFacts.Rless_true by lra. reflexivity. Qed.

(** C6.  For parameters of one element type whose shapes broadcast, the
    constructor returns an object whose [mean] is [alpha / beta] and whose
    [variance] is [alpha / square beta] at every batch position; both
    operations are added to the graph by the constructor itself, and the
    accessors only hand them back.  With [alpha = 3.0] and [beta = 2.0] the
    mean is 1.5 and the variance 0.75. *)
Theorem mean_variance_at_construction :
  (forall (T : Type) (K : Kernels T) (alpha beta : arg T) (name : string)
          (g : graph T) (va vb : list T) (n : nat),
      control_stack g = [] ->
      arg_dtype alpha = arg_dtype beta ->
      arg_value alpha = Ok va ->
      arg_value beta = Ok vb ->
      bshape (length va) (length vb) = Some n ->
      exists self g' l m v,
        gamma.__init__ alpha beta name g = Ok (self, g') /\
        created g' = l ++ created g /\
        In (FloatOp (gamma.mean self)) l /\
        In (FloatOp (gamma.variance self)) l /\
        run (gamma.mean self) = Ok m /\
        run (gamma.variance self) = Ok v /\
        length m = n /\ length v = n /\
        forall i ea eb,
          bnth va i = Some ea -> bnth vb i = Some eb ->
          bnth m i = Some (k_div ea eb) /\
          bnth v i = Some (k_div ea (k_square eb))) /\
  (exists self g',
      gamma.__init__ (PyFloats [3%R]) (PyFloats [2%R]) "Gamma" new_graph
        = Ok (self, g') /\
      run (gamma.mean self) = Ok [1.5%R] /\
      run (gamma.variance self) = Ok [0.75%R]).
Proof.
  assert (G : forall (T : Type) (K : Kernels T) (alpha beta : arg T)
                     (name : string) (g : graph T) (va vb : list T) (n : nat),
      control_stack g = [] ->
      arg_dtype alpha = arg_dtype beta ->
      arg_value alpha = Ok va ->
      arg_value beta = Ok vb ->
      bshape (length va) (length vb) = Some n ->
      exists self g' l m v,
        gamma.__init__ alpha beta name g = Ok (self, g') /\
        created g' = l ++ created g /\
        In (FloatOp (gamma.mean self)) l /\
        In (FloatOp (gamma.variance self)) l /\
        run (gamma.mean self) = Ok m /\
        run (gamma.variance self) = Ok v /\
        length m = n /\ length v = n /\
        forall i ea eb,
          bnth va i = Some ea -> bnth vb i = Some eb ->
          bnth m i = Some (k_div ea eb) /\
          bnth v i = Some (k_div ea (k_square eb))).
  { intros T K alpha beta name g va vb n H D Va Vb B.
    destruct (init_ok alpha beta name g va vb n H D Va Vb B)
      as (self & g' & E).
    destruct (init_inv alpha beta name g g' self H E)
      as (_ & _ & _ & _ & Ra & Rb & _ & Hm & Hv & _
          & (l & X & _ & _ & Im & Iv) & _).
    rewrite Va in Ra. rewrite Vb in Rb.
    destruct (run_binary Div _ _ va vb n Ra Rb B) as (m & Rm & Lm & Pm).
    destruct (run_binary Div _ (Unary [] Square (gamma._beta self))
                va (map (un Square) vb) n Ra (run_unary Square _ vb Rb))
      as (v & Rv & Lv & Pv).
    { now rewrite length_map. }
    exists self, g', l, m, v. unfold gamma.mean, gamma.variance.
    rewrite Hm, Hv in *.
    repeat split; auto.
    - now apply Pm.
    - apply Pv; [assumption|]. now apply (bnth_map (un Square)). }
  split; [exact G|].
  destruct (G R real (PyFloats [3%R]) (PyFloats [2%R]) "Gamma"%string
              new_graph [3%R] [2%R] 1%nat eq_refl eq_refl eq_refl eq_refl
              eq_refl)
    as (self & g' & l & m & v & E & _ & _ & _ & Rm & Rv & Lm & Lv & P).
  destruct (P 0%nat 3%R 2%R eq_refl eq_refl) as (Pm & Pv).
  exists self, g'. split; [exact E|].
  rewrite Rm, Rv.
  rewrite (singleton_value m _ Lm Pm), (singleton_value v _ Lv Pv).
  simpl. unfold Rsqr. split; do 2 f_equal; lra.
Qed.

Lemma mean_variance_witness :
  exists self g' m,
    gamma.__init__ (PyFloats [3%R; 4%R]) (PyFloats [2%R; 3%R]) "Gamma"
      new_graph = Ok (self, g') /\
    run (gamma.mean self) = Ok m /\ length m = 2.
Proof.
  destruct (proj1 mean_variance_at_construction R real
              (PyFloats [3%R; 4%R]) (PyFloats [2%R; 3%R]) "Gamma"%string
              new_graph [3%R; 4%R] [2%R; 3%R] 2 eq_refl eq_refl eq_refl
              eq_refl eq_refl)
    as (self & g' & l & m & v & E & _ & _ & _ & Rm & _ & Lm & _).
  exists self, g', m. repeat split; assumption.
Defined.

(** The distribution of the spec's scenario, [Gamma(alpha=3.0, beta=2.0)],
    and what [log_pdf(1.0)] evaluates to on it. *)
Lemma log_pdf_at_one :
  exists self g',
    gamma.__init__ (PyFloats [3%R]) (PyFloats [2%R]) "Gamma" new_graph
      = Ok (self, g') /\
    outcome (gamma.log_pdf self (PyFloats [1%R])) g'
      = Ok [(2 * ln 2 - 2)%R].
Proof.
  destruct (gamma_of_floats [3%R] [2%R] "Gamma"%string 1 eq_refl)
    as (self & g' & E & C & H & Ra & Rb & D & _).
  exists self, g'. split; [exact E|].
  destruct (log_pdf_outcome self (PyFloats [1%R]) g' [3%R] [2%R] [1%R] 1
              C H Ra Rb eq_refl (eq_sym D) eq_refl) as (Pos & _).
  destruct (Pos positive_one) as (r & Rr & Lr & P).
  rewrite Rr.
  rewrite (singleton_value r _ Lr (P 0%nat 3%R 2%R 1%R eq_refl eq_refl eq_refl)).
  simpl. rewrite ln_1, RealFacts.Rlgamma_three. do 2 f_equal. ring.
Qed.

(** C3, as amended.  For a distribution object, an argument of its element
    type whose elements are all positive and whose shape broadcasts against
    the parameters, [log_pdf] evaluates at every batch position to
    [alpha * log beta + (alpha - 1) * log x - beta * x - lgamma alpha].  For
    [alpha = 3.0], [beta = 2.0], [x = 1.0] this is [2 ln 2 - 2], a number
    between -0.62 and -0.60. *)
Theorem log_pdf_formula :
  (forall (T : Type) (K : Kernels T) (self : gamma.Gamma) (x : arg T)
          (g : graph T) (va vb vx : list T) (n : nat),
      gamma.constructed self ->
      control_stack g = [] ->
      run (gamma.alpha self) = Ok va ->
      run (gamma.beta self) = Ok vb ->
      arg_value x = Ok vx ->
      arg_dtype x = gamma.dtype self ->
      forallb (k_less k_zero) vx = true ->
      bshape (bmax (length va) (length vb)) (length vx) = Some n ->
      exists r,
        outcome (gamma.log_pdf self x) g = Ok r /\
        length r = n /\
        forall i ea eb ex,
          bnth va i = Some ea -> bnth vb i = Some eb ->
          bnth vx i = Some ex ->
          bnth r i =
          Some (k_sub
                  (k_sub
                     (k_add (k_mul ea (k_log eb))
                            (k_mul (k_sub ea k_one) (k_log ex)))
                     (k_mul eb ex))
                  (k_lgamma ea))) /\
  (exists self g',
      gamma.__init__ (PyFloats [3%R]) (PyFloats [2%R]) "Gamma" new_graph
        = Ok (self, g') /\
      outcome (gamma.log_pdf self (PyFloats [1%R])) g'
        = Ok [(2 * ln 2 - 2)%R] /\
      (-0.62 < 2 * ln 2 - 2 < -0.60)%R).
Proof.
  split.
  - intros T K self x g va vb vx n C H Ra Rb Vx Dx Pos B.
    destruct (log_pdf_outcome self x g va vb vx n C H Ra Rb Vx Dx B)
      as (P & _).
    exact (P Pos).
  - destruct log_pdf_at_one as (self & g' & E & O).
    exists self, g'. repeat split; auto.
    + pose proof LnTwo.ln_2_lower. lra.
    + pose proof LnTwo.ln_2_upper. lra.
Qed.

Lemma log_pdf_formula_witness :
  exists self r,
    gamma.constructed self /\
    outcome (gamma.log_pdf self (PyFloats [1%R; 2%R])) new_graph = Ok r /\
    length r = 2.
Proof.
  destruct (gamma_of_floats [3%R; 4%R] [2%R; 3%R] "Gamma"%string 2 eq_refl)
    as (self & g' & E & C & H & Ra & Rb & D & _).
  assert (Pos : forallb (Rless 0) [1%R; 2%R] = true).
  { simpl. rewrite !RealFacts.Rless_true by lra. reflexivity. }
  destruct (proj1 log_pdf_formula R real self (PyFloats [1%R; 2%R])
              new_graph [3%R; 4%R] [2%R; 3%R] [1%R; 2%R] 2
              C eq_refl Ra Rb eq_refl (eq_sym D) Pos eq_refl)
    as (r & Rr & Lr & _).
  exists self, r. repeat split; assumption.
Defined.

(** C3, the value the spec gives.  On [Gamma(alpha=3.0, beta=2.0)] the
    result of [log_pdf(1.0)] is negative, hence not within a thousandth of
    0.386294. *)
Lemma log_pdf_not_0_386294 :
  exists self g' v,
    gamma.__init__ (PyFloats [3%R]) (PyFloats [2%R]) "Gamma" new_graph
      = Ok (self, g') /\
    outcome (gamma.log_pdf self (PyFloats [1%R])) g' = Ok [v] /\
    (v < 0)%R /\
    ~ (Rabs (v - 0.386294) < 0.001)%R.
Proof.
  destruct log_pdf_at_one as (self & g' & E & O).
  exists self, g', (2 * ln 2 - 2)%R.
  pose proof LnTwo.ln_2_upper as U.
  repeat split; auto; [lra|].
  intros A. apply Rabs_def2 in A. lra.
Qed.

(** C1.  What the code does on the input of the claim.  On
    [Gamma(alpha=3.0, beta=2.0)], [cdf(-1.0)] and [cdf(0.0)] evaluate without
    any failure to the incomplete gamma kernel at [beta * x], while
    [log_cdf(-1.0)] on the same object fails its positivity assertion. *)
Theorem cdf_accepts_nonpositive :
  exists self g',
    gamma.__init__ (PyFloats [3%R]) (PyFloats [2%R]) "Gamma" new_graph
      = Ok (self, g') /\
    outcome (gamma.cdf self (PyFloats [(-1)%R])) g'
      = Ok [Rigamma 3 (2 * -1)] /\
    outcome (gamma.cdf self (PyFloats [0%R])) g'
      = Ok [Rigamma 3 (2 * 0)] /\
    outcome (gamma.log_cdf self (PyFloats [(-1)%R])) g'
      = Raise DomainError.
Proof.
  destruct (gamma_of_floats [3%R] [2%R] "Gamma"%string 1 eq_refl)
    as (self & g' & E & C & H & Ra & Rb & D & _).
  exists self, g'. split; [exact E|].
  assert (Neg : forallb (Rless 0) [(-1)%R] = false).
  { simpl. rewrite RealFacts.Rless_false by lra. reflexivity. }
  repeat split.
  - destruct (cdf_outcome self (PyFloats [(-1)%R]) g' [3%R] [2%R] [(-1)%R] 1
                C H Ra Rb eq_refl eq_refl eq_refl) as (r & Rr & Lr & P).
    rewrite Rr.
    now rewrite (singleton_value r _ Lr
                   (P 0%nat 3%R 2%R (-1)%R eq_refl eq_refl eq_refl)).
  - destruct (cdf_outcome self (PyFloats [0%R]) g' [3%R] [2%R] [0%R] 1
                C H Ra Rb eq_refl eq_refl eq_refl) as (r & Rr & Lr & P).
    rewrite Rr.
    now rewrite (singleton_value r _ Lr
                   (P 0%nat 3%R 2%R 0%R eq_refl eq_refl eq_refl)).
  - destruct (log_cdf_outcome self (PyFloats [(-1)%R]) g' [3%R] [2%R]
                [(-1)%R] 1 C H Ra Rb eq_refl (eq_sym D) eq_refl)
      as (_ & N).
    exact (N Neg).
Qed.

(** C2, as amended.  The constructor never fails with [DomainError].  For
    parameters of one element type whose shapes broadcast it returns an
    object whatever the sign of their elements, having added to the graph
    one positivity assertion on [alpha] and one on [beta]. *)
Theorem init_defers_positivity :
  (forall (T : Type) (K : Kernels T) (alpha beta : arg T) (name : string)
          (g : graph T),
      gamma.__init__ alpha beta name g <> Raise DomainError) /\
  (forall (T : Type) (K : Kernels T) (alpha beta : arg T) (name : string)
          (g : graph T) (va vb : list T) (n : nat),
      control_stack g = [] ->
      arg_dtype alpha = arg_dtype beta ->
      arg_value alpha = Ok va ->
      arg_value beta = Ok vb ->
      bshape (length va) (length vb) = Some n ->
      exists self g' l,
        gamma.__init__ alpha beta name g = Ok (self, g') /\
        created g' = l ++ created g /\
        In (FloatOp (AssertPositive [] (gamma.alpha self))) l /\
        In (FloatOp (AssertPositive [] (gamma.beta self))) l).
Proof.
  split.
  - intros T K alpha beta name g E.
    now apply (init_raises alpha beta name g DomainError E).
  - intros T K alpha beta name g va vb n H D Va Vb B.
    destruct (init_ok alpha beta name g va vb n H D Va Vb B)
      as (self & g' & E).
    destruct (init_inv alpha beta name g g' self H E)
      as (_ & _ & _ & _ & _ & _ & _ & _ & _ & _ & (l & X & Ia & Ib & _) & _).
    exists self, g', l. repeat split; assumption.
Qed.

Lemma init_defers_positivity_witness :
  exists self g',
    gamma.__init__ (PyFloats [(-1)%R; 0%R]) (PyFloats [2%R]) "Gamma"
      new_graph = Ok (self, g') /\
    In (FloatOp (AssertPositive [] (gamma.alpha self))) (created g').
Proof.
  destruct (proj2 init_defers_positivity R real
              (PyFloats [(-1)%R; 0%R]) (PyFloats [2%R]) "Gamma"%string
              new_graph [(-1)%R; 0%R] [2%R] 2 eq_refl eq_refl eq_refl
              eq_refl eq_refl)
    as (self & g' & l & E & X & Ia & _).
  exists self, g'. split; [exact E|].
  rewrite X. apply in_or_app. left. exact Ia.
Defined.

(** C2, the claim as stated.  [Gamma(alpha=-1.0, beta=2.0)] is constructed
    without any failure, and the object is observable: its [alpha] evaluates
    to -1 and its [mean] to -1/2. *)
Lemma init_accepts_nonpositive :
  exists self g',
    gamma.__init__ (PyFloats [(-1)%R]) (PyFloats [2%R]) "Gamma" new_graph
      = Ok (self, g') /\
    run (gamma.alpha self) = Ok [(-1)%R] /\
    run (gamma.mean self) = Ok [(-1 / 2)%R].
Proof.
  destruct (gamma_of_floats [(-1)%R] [2%R] "Gamma"%string 1 eq_refl)
    as (self & g' & E & C & H & Ra & Rb & D & _).
  exists self, g'. repeat split; auto.
  destruct (constructed_inv self C) as (_ & Hm & _).
  unfold gamma.mean. rewrite Hm.
  destruct (run_binary Div _ _ [(-1)%R] [2%R] 1 Ra Rb eq_refl)
    as (m & Rm & Lm & Pm).
  rewrite Rm.
  now rewrite (singleton_value m _ Lm (Pm 0%nat (-1)%R 2%R eq_refl eq_refl)).
Qed.

(** C4.  Called outside any control-dependency block, [pdf] fails to build
    exactly when [log_pdf] does, with the same exception; and what the
    caller observes of [pdf] is what it observes of [log_pdf], with [exp]
    applied to every element when there is a value; on a positive argument
    of the distribution's element type there is one. *)
Theorem pdf_is_exp_of_log_pdf :
  forall (T : Type) (K : Kernels T) (self : gamma.Gamma) (x : arg T)
         (g : graph T),
    control_stack g = [] ->
    (forall e, gamma.pdf self x g = Raise e <->
               gamma.log_pdf self x g = Raise e) /\
    outcome (gamma.pdf self x) g =
      match outcome (gamma.log_pdf self x) g with
      | Ok v => Ok (map k_exp v)
      | Raise e => Raise e
      end /\
    (forall va vb vx n,
        gamma.constructed self ->
        run (gamma.alpha self) = Ok va ->
        run (gamma.beta self) = Ok vb ->
        arg_value x = Ok vx ->
        arg_dtype x = gamma.dtype self ->
        forallb (k_less k_zero) vx = true ->
        bshape (bmax (length va) (length vb)) (length vx) = Some n ->
        exists l,
          outcome (gamma.log_pdf self x) g = Ok l /\
          outcome (gamma.pdf self x) g = Ok (map k_exp l) /\
          length l = n).
Proof.
  intros T K self x g H. split; [|split].
  - intros e. rewrite pdf_unfold.
    destruct (gamma.log_pdf self x g) as [[l g']|e']; split; congruence.
  - now apply pdf_outcome.
  - intros va vb vx n C Ra Rb Vx Dx Pos B.
    destruct (log_pdf_outcome self x g va vb vx n C H Ra Rb Vx Dx B)
      as (P & _).
    destruct (P Pos) as (l & Rl & Ll & _).
    exists l. rewrite (pdf_outcome self x g H), Rl. auto.
Qed.

Lemma pdf_is_exp_of_log_pdf_witness :
  exists self l,
    outcome (gamma.log_pdf self (PyFloats [1%R])) new_graph = Ok l /\
    outcome (gamma.pdf self (PyFloats [1%R])) new_graph = Ok (map exp l).
Proof.
  destruct (gamma_of_floats [3%R] [2%R] "Gamma"%string 1 eq_refl)
    as (self & g' & E & C & H & Ra & Rb & D & _).
  destruct (pdf_is_exp_of_log_pdf R real self (PyFloats [1%R]) new_graph
              eq_refl) as (_ & _ & P).
  destruct (P [3%R] [2%R] [1%R] 1 C Ra Rb eq_refl (eq_sym D) positive_one
              eq_refl) as (l & Rl & Rp & _).
  exists self, l. split; assumption.
Defined.

(** C5.  For a distribution object and an argument whose shape broadcasts
    against the parameters: when the argument has the distribution's
    element type and only positive elements, [log_cdf] evaluates at every
    batch position to [log (igamma alpha (beta * x))], the logarithm being
    applied to the inner value as it is, also when that value is zero; when
    some element is not positive, [log_cdf] and [log_pdf] both fail with
    [DomainError]; when the element type differs, both fail with
    [TypeMismatchError]. *)
Theorem log_cdf_spec :
  forall (T : Type) (K : Kernels T) (self : gamma.Gamma) (x : arg T)
         (g : graph T) (va vb vx : list T) (n : nat),
    gamma.constructed self ->
    control_stack g = [] ->
    run (gamma.alpha self) = Ok va ->
    run (gamma.beta self) = Ok vb ->
    arg_value x = Ok vx ->
    bshape (bmax (length va) (length vb)) (length vx) = Some n ->
    (arg_dtype x = gamma.dtype self ->
     forallb (k_less k_zero) vx = true ->
     exists r,
       outcome (gamma.log_cdf self x) g = Ok r /\
       length r = n /\
       (forall i ea eb ex,
           bnth va i = Some ea -> bnth vb i = Some eb ->
           bnth vx i = Some ex ->
           bnth r i = Some (k_log (k_igamma ea (k_mul eb ex)))) /\
       (forall i ea eb ex,
           bnth va i = Some ea -> bnth vb i = Some eb ->
           bnth vx i = Some ex ->
           k_igamma ea (k_mul eb ex) = k_zero ->
           bnth r i = Some (k_log k_zero))) /\
    (arg_dtype x = gamma.dtype self ->
     forallb (k_less k_zero) vx = false ->
     outcome (gamma.log_cdf self x) g = Raise DomainError /\
     outcome (gamma.log_pdf self x) g = Raise DomainError) /\
    (arg_dtype x <> gamma.dtype self ->
     outcome (gamma.log_cdf self x) g = Raise TypeMismatchError /\
     outcome (gamma.log_pdf self x) g = Raise TypeMismatchError).
Proof.
  intros T K self x g va vb vx n C H Ra Rb Vx B. split; [|split].
  - intros Dx Pos.
    destruct (log_cdf_outcome self x g va vb vx n C H Ra Rb Vx Dx B)
      as (P & _).
    destruct (P Pos) as (r & Rr & Lr & Pr).
    exists r. repeat split; auto.
    intros i ea eb ex Ha Hb Hx Z. rewrite <- Z. now apply Pr.
  - intros Dx Neg. split.
    + now apply (log_cdf_outcome self x g va vb vx n C H Ra Rb Vx Dx B).
    + now apply (log_pdf_outcome self x g va vb vx n C H Ra Rb Vx Dx B).
  - intros Dx. unfold outcome.
    now rewrite log_cdf_mismatch, log_pdf_mismatch.
Qed.

Lemma log_cdf_spec_witness :
  exists self r,
    outcome (gamma.log_cdf self (PyFloats [1%R])) new_graph = Ok r /\
    bnth r 0 = Some (ln (Rigamma 3 (2 * 1))) /\
    outcome (gamma.log_cdf self (PyFloats [(-1)%R])) new_graph
      = Raise DomainError.
Proof.
  destruct (gamma_of_floats [3%R] [2%R] "Gamma"%string 1 eq_refl)
    as (self & g' & E & C & H & Ra & Rb & D & _).
  destruct (log_cdf_spec R real self (PyFloats [1%R]) new_graph
              [3%R] [2%R] [1%R] 1 C eq_refl Ra Rb eq_refl eq_refl)
    as (P & _ & _).
  destruct (P (eq_sym D) positive_one) as (r & Rr & _ & Pr & _).
  assert (Neg : forallb (Rless 0) [(-1)%R] = false).
  { simpl. rewrite RealFacts.Rless_false by lra. reflexivity. }
  destruct (log_cdf_spec R real self (PyFloats [(-1)%R]) new_graph
              [3%R] [2%R] [(-1)%R] 1 C eq_refl Ra Rb eq_refl eq_refl)
    as (_ & N & _).
  destruct (N (eq_sym D) Neg) as (Nc & _).
  exists self, r. repeat split.
  - exact Rr.
  - exact (Pr 0%nat 3%R 2%R 1%R eq_refl eq_refl eq_refl).
  - exact Nc.
Defined.

(** C7.  For a distribution object whose parameters evaluate, [entropy]
    takes no argument, builds without failure and evaluates at every batch
    position to
    [alpha - log beta + lgamma alpha + (1 - alpha) * digamma alpha]. *)
Theorem entropy_formula :
  forall (T : Type) (K : Kernels T) (self : gamma.Gamma) (g : graph T)
         (va vb : list T),
    gamma.constructed self ->
    control_stack g = [] ->
    run (gamma.alpha self) = Ok va ->
    run (gamma.beta self) = Ok vb ->
    exists r,
      outcome (gamma.entropy self) g = Ok r /\
      length r = bmax (length va) (length vb) /\
      forall i ea eb,
        bnth va i = Some ea -> bnth vb i = Some eb ->
        bnth r i =
        Some (k_add (k_add (k_sub ea (k_log eb)) (k_lgamma ea))
                    (k_mul (k_sub k_one ea) (k_digamma ea))).
Proof.
  intros T K self g va vb C H Ra Rb.
  destruct (constructed_inv self C) as (D & _ & _ & Hs & _).
  pose proof (Hs va vb Ra Rb) as B1.
  pose proof (entropy_built self g (length va) (length vb)
                H D (run_shape _ _ Ra) (run_shape _ _ Rb) B1) as P.
  cbv zeta in P. destruct P as (g' & E & _).
  unfold outcome. rewrite E.
  now apply entropy_run.
Qed.

Lemma entropy_formula_witness :
  exists self r,
    gamma.constructed self /\
    outcome (gamma.entropy self) new_graph = Ok r /\
    bnth r 1 =
    Some (4 - ln 3 + Rlgamma 4 + (1 - 4) * Rdigamma 4)%R.
Proof.
  destruct (gamma_of_floats [3%R; 4%R] [2%R; 3%R] "Gamma"%string 2 eq_refl)
    as (self & g' & E & C & H & Ra & Rb & D & _).
  destruct (entropy_formula R real self new_graph [3%R; 4%R] [2%R; 3%R]
              C eq_refl Ra Rb) as (r & Rr & _ & Pr).
  exists self, r. repeat split; [exact C | exact Rr |].
  exact (Pr 1%nat 4%R 3%R eq_refl eq_refl).
Defined.

(** C9.  Parameters of different element types make the constructor fail
    with [TypeMismatchError]; an argument whose element type is not the
    distribution's makes [log_pdf] and [log_cdf] fail with
    [TypeMismatchError]. *)
Theorem precision_mismatch :
  forall (T : Type) (K : Kernels T),
    (forall (alpha beta : arg T) (name : string) (g : graph T),
        arg_dtype alpha <> arg_dtype beta ->
        gamma.__init__ alpha beta name g = Raise TypeMismatchError) /\
    (forall (self : gamma.Gamma) (x : arg T) (g : graph T),
        arg_dtype x <> gamma.dtype self ->
        outcome (gamma.log_pdf self x) g = Raise TypeMismatchError /\
        outcome (gamma.log_cdf self x) g = Raise TypeMismatchError).
Proof.
  intros T K. split.
  - intros alpha beta name g D. unfold gamma.__init__, ops.op_scope.
    destruct alpha as [va|ta], beta as [vb|tb]; simpl in *;
      try congruence; unfold bind; simpl;
      now rewrite same_dtype_pair_mismatch by (simpl; congruence).
  - intros self x g D. unfold outcome.
    now rewrite log_pdf_mismatch, log_cdf_mismatch.
Qed.

Lemma precision_mismatch_witness :
  gamma.__init__ (PyFloats [3%R]) (Tensor (Const [] float64 [2%R])) "Gamma"
    new_graph = Raise TypeMismatchError /\
  exists self,
    gamma.constructed self /\
    outcome (gamma.log_pdf self (Tensor (Const [] float64 [1%R]))) new_graph
      = Raise TypeMismatchError.
Proof.
  split.
  - apply (proj1 (precision_mismatch R real)). simpl. discriminate.
  - destruct (gamma_of_floats [3%R] [2%R] "Gamma"%string 1 eq_refl)
      as (self & g' & E & C & H & Ra & Rb & D & _).
    exists self. split; [exact C|].
    apply (proj2 (precision_mismatch R real)).
    rewrite D. simpl. discriminate.
Defined.

(** C10.  What a caller observes of a query depends on the parameters of the
    distribution, on the argument and on the control dependencies the
    caller has put in force, and on nothing else: not on what the graph
    already contains, not on the name of the object, not on an earlier
    call.  No method returns or changes the object. *)
Theorem queries_deterministic :
  forall (T : Type) (K : Kernels T) (self1 self2 : gamma.Gamma) (x : arg T)
         (g1 g2 : graph T),
    gamma.constructed self1 ->
    gamma.constructed self2 ->
    gamma.alpha self1 = gamma.alpha self2 ->
    gamma.beta self1 = gamma.beta self2 ->
    control_stack g1 = control_stack g2 ->
    outcome (gamma.log_pdf self1 x) g1 = outcome (gamma.log_pdf self2 x) g2 /\
    outcome (gamma.pdf self1 x) g1 = outcome (gamma.pdf self2 x) g2 /\
    outcome (gamma.log_cdf self1 x) g1 = outcome (gamma.log_cdf self2 x) g2 /\
    outcome (gamma.cdf self1 x) g1 = outcome (gamma.cdf self2 x) g2 /\
    outcome (gamma.entropy self1) g1 = outcome (gamma.entropy self2) g2 /\
    outcome_int (gamma.batch_shape self1) g1
      = outcome_int (gamma.batch_shape self2) g2 /\
    outcome_int (gamma.event_shape self1) g1
      = outcome_int (gamma.event_shape self2) g2 /\
    gamma.mean self1 = gamma.mean self2 /\
    gamma.variance self1 = gamma.variance self2 /\
    gamma.dtype self1 = gamma.dtype self2 /\
    gamma.get_batch_shape self1 = gamma.get_batch_shape self2 /\
    gamma.get_event_shape self1 = gamma.get_event_shape self2 /\
    gamma.is_reparameterized self1 = gamma.is_reparameterized self2.
Proof.
  intros T K self1 self2 x g1 g2 C1 C2 Ha Hb H.
  unfold gamma.alpha, gamma.beta in Ha, Hb.
  destruct (constructed_inv self1 C1) as (_ & Hm1 & Hv1 & _ & Hs1 & He1).
  destruct (constructed_inv self2 C2) as (_ & Hm2 & Hv2 & _ & Hs2 & He2).
  assert (Hm : gamma._mean self1 = gamma._mean self2) by congruence.
  assert (Hv : gamma._variance self1 = gamma._variance self2) by congruence.
  assert (E1 : gamma.log_pdf self1 x = gamma.log_pdf self2 x).
  { unfold gamma.log_pdf, gamma.dtype, ops.op_scope. now rewrite Ha, Hb. }
  assert (E2 : gamma.pdf self1 x = gamma.pdf self2 x).
  { unfold gamma.pdf. now rewrite E1. }
  assert (E3 : gamma.log_cdf self1 x = gamma.log_cdf self2 x).
  { unfold gamma.log_cdf, gamma.dtype, ops.op_scope. now rewrite Ha, Hb. }
  assert (E4 : gamma.cdf self1 x = gamma.cdf self2 x).
  { unfold gamma.cdf, ops.op_scope. now rewrite Ha, Hb. }
  assert (E5 : gamma.entropy self1 = gamma.entropy self2).
  { unfold gamma.entropy, ops.op_scope. now rewrite Ha, Hb. }
  assert (E6 : gamma.batch_shape self1 = gamma.batch_shape self2).
  { unfold gamma.batch_shape, ops.name_scope. now rewrite Hm. }
  rewrite E1, E2, E3, E4, E5, E6.
  repeat split.
  - apply regular_outcome; [apply regular_log_pdf | exact H].
  - apply regular_outcome; [apply regular_pdf | exact H].
  - apply regular_outcome; [apply regular_log_cdf | exact H].
  - apply regular_outcome; [apply regular_cdf | exact H].
  - apply regular_outcome; [apply regular_entropy | exact H].
  - apply regular_outcome_int; [apply regular_batch_shape | exact H].
  - apply (regular_outcome_int (gamma.event_shape self1) g1 g2
             (regular_event_shape self1) H).
  - exact Hm.
  - exact Hv.
  - unfold gamma.dtype. now rewrite Ha.
  - unfold gamma.get_batch_shape. congruence.
  - unfold gamma.get_event_shape. congruence.
Qed.

Lemma queries_deterministic_witness :
  exists self1 self2 g1,
    created g1 <> [] /\
    gamma.name self1 <> gamma.name self2 /\
    outcome (gamma.log_pdf self1 (PyFloats [1%R])) g1
      = outcome (gamma.log_pdf self2 (PyFloats [1%R])) new_graph.
Proof.
  destruct (gamma_of_floats [3%R] [2%R] "Gamma"%string 1 eq_refl)
    as (self1 & g1 & E1 & C1 & H1 & Ra1 & Rb1 & D1 & A1 & B1 & N1 & I1).
  destruct (gamma_of_floats [3%R] [2%R] "Other"%string 1 eq_refl)
    as (self2 & g2 & E2 & C2 & H2 & Ra2 & Rb2 & D2 & A2 & B2 & N2 & _).
  exists self1, self2, g1.
  assert (A : gamma.alpha self1 = gamma.alpha self2)
    by (unfold gamma.alpha; congruence).
  assert (B : gamma.beta self1 = gamma.beta self2)
    by (unfold gamma.beta; congruence).
  repeat split.
  - exact I1.
  - unfold gamma.name. rewrite N1, N2. discriminate.
  - exact (proj1 (queries_deterministic R real self1 self2 (PyFloats [1%R])
                    g1 new_graph C1 C2 A B H1)).
Defined.

(* ================================================================== *)
(** * Further properties of the class *)

(** ** Failures while the graph is built *)

Section BuildFailures.
Context {T : Type} {K : Kernels T}.

Lemma binary_shape_error (f : binop) (a b : tensor T) (la lb : nat)
    (g : graph T) :
  dtype_of a = dtype_of b ->
  get_shape a = Some la ->
  get_shape b = Some lb ->
  bshape la lb = None ->
  math_ops.binary f a b g = Raise ShapeError.
Proof.
  intros D Sa Sb B. unfold math_ops.binary.
  now rewrite D, dtype_eqb_refl, Sa, Sb, B.
Qed.

Lemma operator_shape_error (f : binop) (a b : tensor T) (la lb : nat)
    (g : graph T) :
  dtype_of a = dtype_of b ->
  get_shape a = Some la ->
  get_shape b = Some lb ->
  bshape la lb = None ->
  math_ops.operator f a (Tensor b) g = Raise ShapeError.
Proof. rewrite operator_tensor. apply binary_shape_error. Qed.

Lemma bind_raise {A B} (m : M T A) (k : A -> M T B) (g : graph T) (e : exn) :
  m g = Raise e -> bind m k g = Raise e.
Proof. unfold bind. now intros ->. Qed.

Lemma bshape_some_or_none (la lb : nat) :
  bshape la lb = Some (bmax la lb) \/ bshape la lb = None.
Proof. bshape_cases; auto. Qed.

End BuildFailures.

(** X1.  For parameters that evaluate, passed outside any control-dependency
    block, what the constructor does is decided by their element types and
    shapes alone: it raises [TypeMismatchError] when the element types
    differ; otherwise it raises [ShapeError] when the shapes do not
    broadcast (the division that builds [mean] is refused); otherwise it
    returns an object whose static batch shape is the broadcast shape. *)
Theorem init_characterised :
  forall (T : Type) (K : Kernels T) (alpha beta : arg T) (name : string)
         (g : graph T) (va vb : list T),
    control_stack g = [] ->
    arg_value alpha = Ok va ->
    arg_value beta = Ok vb ->
    (arg_dtype alpha <> arg_dtype beta ->
     gamma.__init__ alpha beta name g = Raise TypeMismatchError) /\
    (arg_dtype alpha = arg_dtype beta ->
     bshape (length va) (length vb) = None ->
     gamma.__init__ alpha beta name g = Raise ShapeError) /\
    (arg_dtype alpha = arg_dtype beta ->
     forall n, bshape (length va) (length vb) = Some n ->
     exists self g',
       gamma.__init__ alpha beta name g = Ok (self, g') /\
       gamma.get_batch_shape self = Some n).
Proof.
  intros T K alpha beta name g va vb H Va Vb. split; [|split].
  - intros D. unfold gamma.__init__, ops.op_scope.
    destruct alpha as [xa|ta], beta as [xb|tb]; simpl in *;
      try congruence; unfold bind; simpl;
      now rewrite same_dtype_pair_mismatch by (simpl; congruence).
  - intros D B.
    pose proof (arg_tensor_shape float32 alpha va Va) as Sa.
    pose proof (arg_tensor_shape float32 beta vb Vb) as Sb.
    rewrite <- !arg_tensor_dtype in D.
    unfold gamma.__init__, ops.op_scope.
    assert (E : exists g3,
               (alpha0 <- ops.convert_to_tensor alpha None ;;
                beta0 <- ops.convert_to_tensor beta None ;;
                _ <- contrib_tensor_util.assert_same_float_dtype
                       [alpha0; beta0] None ;;
                pa <- check_ops.assert_positive alpha0 ;;
                pb <- check_ops.assert_positive beta0 ;;
                ops.control_dependencies [pa; pb] (ret (alpha0, beta0, name)))
               g = Ok ((arg_tensor float32 alpha, arg_tensor float32 beta,
                        name), g3) /\ control_stack g3 = []).
    { destruct (convert_tensor alpha g H) as (g1 & E1 & H1). mstep E1.
      destruct (convert_tensor beta g1 H1) as (g2 & E2 & H2). mstep E2.
      unfold contrib_tensor_util.assert_same_float_dtype, bind. simpl.
      rewrite D, dtype_eqb_refl. unfold ret. simpl.
      unfold ops.control_dependencies. simpl. rewrite H2. eauto. }
    destruct E as (g3 & E & H3). mstep E.
    apply bind_raise.
    now apply (operator_shape_error Div _ _ (length va) (length vb)).
  - intros D n B.
    destruct (init_ok alpha beta name g va vb n H D Va Vb B)
      as (self & g' & E).
    exists self, g'. split; [exact E|].
    destruct (init_inv alpha beta name g g' self H E)
      as (_ & _ & _ & _ & Ra & Rb & _ & Hm & _ & _ & _ & Hb & _).
    unfold gamma.get_batch_shape. rewrite Hb, Hm. simpl.
    rewrite Va in Ra. rewrite Vb in Rb.
    now rewrite (run_shape _ _ Ra), (run_shape _ _ Rb).
Qed.

Lemma init_characterised_witness :
  gamma.__init__ (PyFloats [1%R; 2%R]) (PyFloats [1%R; 2%R; 3%R]) "Gamma"
    new_graph = Raise ShapeError /\
  exists self g',
    gamma.__init__ (PyFloats [1%R; 2%R]) (PyFloats [3%R]) "Gamma" new_graph
      = Ok (self, g') /\
    gamma.get_batch_shape self = Some 2.
Proof.
  split.
  - exact (proj1 (proj2 (init_characterised R real
             (PyFloats [1%R; 2%R]) (PyFloats [1%R; 2%R; 3%R]) "Gamma"%string
             new_graph [1%R; 2%R] [1%R; 2%R; 3%R] eq_refl eq_refl eq_refl))
             eq_refl eq_refl).
  - exact (proj2 (proj2 (init_characterised R real
             (PyFloats [1%R; 2%R]) (PyFloats [3%R]) "Gamma"%string
             new_graph [1%R; 2%R] [3%R] eq_refl eq_refl eq_refl))
             eq_refl 2 eq_refl).
Defined.

(** X2.  The accessors hand back what the constructor was given.  After a
    successful construction, [name] is the name passed, [dtype] is the
    element type of both parameters, and [alpha] and [beta] evaluate to the
    values of the arguments; a parameter passed as a tensor is stored as that
    very tensor, with no operation and no assertion put in front of it, and
    one passed as Python numbers is stored as a [float32] constant. *)
Theorem accessors_return_arguments :
  forall (T : Type) (K : Kernels T) (alpha beta : arg T) (name : string)
         (g g' : graph T) (self : gamma.Gamma),
    control_stack g = [] ->
    gamma.__init__ alpha beta name g = Ok (self, g') ->
    gamma.name self = name /\
    gamma.dtype self = arg_dtype alpha /\
    gamma.dtype self = arg_dtype beta /\
    run (gamma.alpha self) = arg_value alpha /\
    run (gamma.beta self) = arg_value beta /\
    (forall t, alpha = Tensor t -> gamma.alpha self = t) /\
    (forall t, beta = Tensor t -> gamma.beta self = t) /\
    (forall v, alpha = PyFloats v -> gamma.alpha self = Const [] float32 v) /\
    (forall v, beta = PyFloats v -> gamma.beta self = Const [] float32 v).
Proof.
  intros T K alpha beta name g g' self H E.
  destruct (init_inv alpha beta name g g' self H E)
    as (_ & D & Da & Db & Ra & Rb & N & _ & _ & _ & _ & _ & _ & Ta & Tb).
  unfold gamma.name, gamma.dtype, gamma.alpha, gamma.beta.
  repeat split; auto; try congruence.
  - intros t ->. exact Ta.
  - intros t ->. exact Tb.
  - intros v ->. exact Ta.
  - intros v ->. exact Tb.
Qed.

Lemma accessors_return_arguments_witness :
  exists self g',
    gamma.__init__ (Tensor (Const [] float64 [3%R]))
      (Tensor (Const [] float64 [2%R])) "G" new_graph = Ok (self, g') /\
    gamma.name self = "G"%string /\
    gamma.dtype self = float64 /\
    gamma.alpha self = Const [] float64 [3%R].
Proof.
  destruct (init_ok (Tensor (Const [] float64 [3%R]))
              (Tensor (Const [] float64 [2%R])) "G"%string new_graph
              [3%R] [2%R] 1 eq_refl eq_refl eq_refl eq_refl eq_refl)
    as (self & g' & E).
  destruct (accessors_return_arguments R real
              (Tensor (Const [] float64 [3%R]))
              (Tensor (Const [] float64 [2%R])) "G"%string new_graph g' self
              eq_refl E)
    as (N & D & _ & _ & _ & Ta & _).
  exists self, g'. repeat split; auto.
Defined.

(** X3.  The positivity assertions of the constructor guard nothing.  After
    a successful construction on parameters that evaluate, the two
    assertion operations are in the graph, and each fails with
    [DomainError] when fetched exactly when its parameter has an element
    that is not positive; but the [alpha] and [beta] the object stores, and
    its [mean] and [variance], evaluate without waiting for them, whatever
    the sign of the elements. *)
Theorem constructor_assertions_guard_nothing :
  forall (T : Type) (K : Kernels T) (alpha beta : arg T) (name : string)
         (g g' : graph T) (self : gamma.Gamma) (va vb : list T),
    control_stack g = [] ->
    gamma.__init__ alpha beta name g = Ok (self, g') ->
    arg_value alpha = Ok va ->
    arg_value beta = Ok vb ->
    In (FloatOp (AssertPositive [] (gamma.alpha self))) (created g') /\
    In (FloatOp (AssertPositive [] (gamma.beta self))) (created g') /\
    run (AssertPositive [] (gamma.alpha self)) =
      (if forallb (k_less k_zero) va then Ok [] else Raise DomainError) /\
    run (AssertPositive [] (gamma.beta self)) =
      (if forallb (k_less k_zero) vb then Ok [] else Raise DomainError) /\
    run (gamma.alpha self) = Ok va /\
    run (gamma.beta self) = Ok vb /\
    exists m v,
      run (gamma.mean self) = Ok m /\ run (gamma.variance self) = Ok v.
Proof.
  intros T K alpha beta name g g' self va vb H E Va Vb.
  destruct (init_inv alpha beta name g g' self H E)
    as (_ & _ & _ & _ & Ra & Rb & _ & Hm & Hv & Hs
        & (l & X & Ia & Ib & _) & _).
  rewrite Va in Ra. rewrite Vb in Rb.
  unfold gamma.alpha, gamma.beta, gamma.mean, gamma.variance.
  repeat split; auto.
  - rewrite X. apply in_or_app. now left.
  - rewrite X. apply in_or_app. now left.
  - rewrite run_AssertPositive. simpl. now rewrite Ra.
  - rewrite run_AssertPositive. simpl. now rewrite Rb.
  - pose proof (Hs _ _ (run_shape _ _ Ra) (run_shape _ _ Rb)) as B.
    destruct (run_binary Div _ _ va vb _ Ra Rb B) as (m & Rm & _).
    destruct (run_binary Div _ (Unary [] Square (gamma._beta self))
                va (map (un Square) vb) (bmax (length va) (length vb))
                Ra (run_unary Square _ vb Rb)) as (v & Rv & _).
    { now rewrite length_map. }
    exists m, v. rewrite Hm, Hv. now split.
Qed.

Lemma constructor_assertions_guard_nothing_witness :
  exists self g',
    gamma.__init__ (PyFloats [(-1)%R]) (PyFloats [2%R]) "Gamma" new_graph
      = Ok (self, g') /\
    run (AssertPositive [] (gamma.alpha self)) = Raise DomainError /\
    run (gamma.alpha self) = Ok [(-1)%R].
Proof.
  destruct (init_ok (PyFloats [(-1)%R]) (PyFloats [2%R]) "Gamma"%string
              new_graph [(-1)%R] [2%R] 1 eq_refl eq_refl eq_refl eq_refl
              eq_refl) as (self & g' & E).
  destruct (constructor_assertions_guard_nothing R real
              (PyFloats [(-1)%R]) (PyFloats [2%R]) "Gamma"%string new_graph
              g' self [(-1)%R] [2%R] eq_refl E eq_refl eq_refl)
    as (_ & _ & Aa & _ & Ra & _).
  exists self, g'. repeat split; auto.
  rewrite Aa. simpl. now rewrite RealFacts.Rless_false by lra.
Defined.

(** ** Shapes *)

Section ShapeMethods.
Context {T : Type} {K : Kernels T}.



End ShapeMethods.



(** ** How the methods relate *)

Section Relations.
Context {T : Type} {K : Kernels T}.

(** The graph of [cdf] reads its argument only through its value. *)
Lemma cdf_graph_value (a b x1 x2 : tensor T) :
  run x1 = run x2 ->
  run (Binary [] Igamma a (Binary [] Mul b x1))
  = run (Binary [] Igamma a (Binary [] Mul b x2)).
Proof.
  intros H.
  rewrite (run_Binary [] Igamma a (Binary [] Mul b x1)).
  rewrite (run_Binary [] Igamma a (Binary [] Mul b x2)).
  rewrite (run_Binary [] Mul b x1), (run_Binary [] Mul b x2).
  now rewrite H.
Qed.

Lemma arg_dtype_fits (x : arg T) (d : dtype) :
  arg_dtype x = d -> arg_fits x d = true.
Proof.
  destruct x as [v|t]; simpl; [reflexivity|].
  intros <-. apply dtype_eqb_refl.
Qed.

(** A value known at every batch position, for scalar operands. *)
Lemma map_of_bnth (f : T -> T) (l r : list T) :
  length r = length l ->
  (forall i x, bnth l i = Some x -> bnth r i = Some (f x)) ->
  r = map f l.
Proof.
  intros L P.
  destruct (Nat.eq_dec (length l) 1) as [E|E].
  - destruct (length_one l E) as [x ->].
    apply singleton_value; [exact L|]. now apply P.
  - apply nth_error_ext. intros i.
    rewrite nth_error_map.
    destruct (nth_error l i) as [x|] eqn:N.
    + specialize (P i x). rewrite !bnth_long in P by congruence.
      simpl. now apply P.
    + simpl. apply nth_error_None. apply nth_error_None in N. lia.
Qed.

End Relations.

(** X6.  [log_cdf] is the logarithm of [cdf] wherever its guard lets the
    argument through: on an argument of the distribution's element type
    whose elements are all positive and whose shape broadcasts against the
    parameters, [cdf] evaluates to some [r] and [log_cdf] to [log] of every
    element of [r]. *)
Theorem log_cdf_is_log_of_cdf :
  forall (T : Type) (K : Kernels T) (self : gamma.Gamma) (x : arg T)
         (g1 g2 : graph T) (va vb vx : list T) (n : nat),
    gamma.constructed self ->
    control_stack g1 = [] ->
    control_stack g2 = [] ->
    run (gamma.alpha self) = Ok va ->
    run (gamma.beta self) = Ok vb ->
    arg_value x = Ok vx ->
    arg_dtype x = gamma.dtype self ->
    forallb (k_less k_zero) vx = true ->
    bshape (bmax (length va) (length vb)) (length vx) = Some n ->
    exists r,
      outcome (gamma.cdf self x) g1 = Ok r /\
      outcome (gamma.log_cdf self x) g2 = Ok (map k_log r) /\
      length r = n.
Proof.
  intros T K self x g1 g2 va vb vx n C H1 H2 Ra Rb Vx Dx Pos B.
  unfold gamma.alpha, gamma.beta in Ra, Rb.
  destruct (constructed_inv self C) as (D & _ & _ & Hs & _).
  pose proof (Hs va vb Ra Rb) as B1.
  assert (B2 : bshape (length vb) (length vx)
               = Some (bmax (length vb) (length vx))) by bshape_cases.
  assert (B3 : bshape (length va) (bmax (length vb) (length vx))
               = Some (bmax (length va) (bmax (length vb) (length vx))))
    by bshape_cases.
  destruct (cdf_built self x g1 (length va) (length vb) (length vx)
              H1 D (arg_dtype_fits x _ Dx)
              (run_shape _ _ Ra) (run_shape _ _ Rb)
              (arg_tensor_shape (gamma.dtype self) x vx Vx) B2 B3)
    as (g1' & E1 & _).
  pose proof (log_cdf_built self x g2 (length va) (length vb) (length vx)
                H2 D Dx (run_shape _ _ Ra) (run_shape _ _ Rb)
                (arg_tensor_shape float32 x vx Vx) B2 B3) as P.
  cbv zeta in P. destruct P as (g2' & E2 & _).
  destruct (cdf_run _ _ (arg_tensor (gamma.dtype self) x) va vb vx n
              Ra Rb (eq_trans (arg_tensor_run _ x) Vx) B1 B)
    as (r & Rr & Lr & _).
  exists r. unfold outcome. rewrite E1, E2. repeat split; auto.
  rewrite run_Unary. simpl wait.
  rewrite (cdf_graph_value _ _ _ (arg_tensor (gamma.dtype self) x)).
  - now rewrite Rr.
  - rewrite (run_guarded _ vx (eq_trans (arg_tensor_run _ x) Vx)), Pos.
    now rewrite arg_tensor_run.
Qed.

Lemma log_cdf_is_log_of_cdf_witness :
  exists self r,
    gamma.constructed self /\
    outcome (gamma.cdf self (PyFloats [1%R; 2%R])) new_graph = Ok r /\
    outcome (gamma.log_cdf self (PyFloats [1%R; 2%R])) new_graph
      = Ok (map ln r).
Proof.
  destruct (gamma_of_floats [3%R] [2%R] "Gamma"%string 1 eq_refl)
    as (self & g' & E & C & H & Ra & Rb & D & _).
  assert (Pos : forallb (Rless 0) [1%R; 2%R] = true).
  { simpl. rewrite !RealFacts.Rless_true by lra. reflexivity. }
  destruct (log_cdf_is_log_of_cdf R real self (PyFloats [1%R; 2%R])
              new_graph new_graph [3%R] [2%R] [1%R; 2%R] 2
              C eq_refl eq_refl Ra Rb eq_refl (eq_sym D) Pos eq_refl)
    as (r & Rc & Rl & _).
  exists self, r. repeat split; assumption.
Defined.

(** X7.  [pdf] has the guards of [log_pdf] and its value is the density.
    For a distribution object and an argument whose shape broadcasts
    against the parameters: with the distribution's element type and only
    positive elements, [pdf] evaluates at every batch position to
    [exp (alpha * log beta + (alpha - 1) * log x - beta * x - lgamma alpha)];
    with an element that is not positive it fails with [DomainError]; with
    another element type it fails with [TypeMismatchError]. *)
Theorem pdf_spec :
  forall (T : Type) (K : Kernels T) (self : gamma.Gamma) (x : arg T)
         (g : graph T) (va vb vx : list T) (n : nat),
    gamma.constructed self ->
    control_stack g = [] ->
    run (gamma.alpha self) = Ok va ->
    run (gamma.beta self) = Ok vb ->
    arg_value x = Ok vx ->
    bshape (bmax (length va) (length vb)) (length vx) = Some n ->
    (arg_dtype x = gamma.dtype self ->
     forallb (k_less k_zero) vx = true ->
     exists r,
       outcome (gamma.pdf self x) g = Ok r /\
       length r = n /\
       forall i ea eb ex,
         bnth va i = Some ea -> bnth vb i = Some eb ->
         bnth vx i = Some ex ->
         bnth r i =
         Some (k_exp
                 (k_sub
                    (k_sub
                       (k_add (k_mul ea (k_log eb))
                              (k_mul (k_sub ea k_one) (k_log ex)))
                       (k_mul eb ex))
                    (k_lgamma ea)))) /\
    (arg_dtype x = gamma.dtype self ->
     forallb (k_less k_zero) vx = false ->
     outcome (gamma.pdf self x) g = Raise DomainError) /\
    (arg_dtype x <> gamma.dtype self ->
     outcome (gamma.pdf self x) g = Raise TypeMismatchError).
Proof.
  intros T K self x g va vb vx n C H Ra Rb Vx B.
  rewrite (pdf_outcome self x g H).
  split; [|split].
  - intros Dx Pos.
    destruct (log_pdf_outcome self x g va vb vx n C H Ra Rb Vx Dx B)
      as (P & _).
    destruct (P Pos) as (l & Rl & Ll & Pl).
    exists (map k_exp l). rewrite Rl. repeat split.
    + now rewrite length_map.
    + intros i ea eb ex Ha Hb Hx. apply bnth_map. now apply Pl.
  - intros Dx Neg.
    destruct (log_pdf_outcome self x g va vb vx n C H Ra Rb Vx Dx B)
      as (_ & N).
    now rewrite (N Neg).
  - intros Dx. unfold outcome. now rewrite log_pdf_mismatch.
Qed.

Lemma pdf_spec_witness :
  exists self r,
    gamma.constructed self /\
    outcome (gamma.pdf self (PyFloats [1%R])) new_graph = Ok r /\
    bnth r 0 =
    Some (exp (3 * ln 2 + (3 - 1) * ln 1 - 2 * 1 - Rlgamma 3))%R /\
    outcome (gamma.pdf self (PyFloats [0%R])) new_graph = Raise DomainError.
Proof.
  destruct (gamma_of_floats [3%R] [2%R] "Gamma"%string 1 eq_refl)
    as (self & g' & E & C & H & Ra & Rb & D & _).
  destruct (pdf_spec R real self (PyFloats [1%R]) new_graph
              [3%R] [2%R] [1%R] 1 C eq_refl Ra Rb eq_refl eq_refl)
    as (P & _ & _).
  destruct (P (eq_sym D) positive_one) as (r & Rr & _ & Pr).
  destruct (pdf_spec R real self (PyFloats [0%R]) new_graph
              [3%R] [2%R] [0%R] 1 C eq_refl Ra Rb eq_refl eq_refl)
    as (_ & N & _).
  assert (Neg : forallb (Rless 0) [0%R] = false).
  { simpl. rewrite RealFacts.Rless_false by lra. reflexivity. }
  exists self, r. repeat split.
  - exact C.
  - exact Rr.
  - exact (Pr 0%nat 3%R 2%R 1%R eq_refl eq_refl eq_refl).
  - exact (N (eq_sym D) Neg).
Defined.

(** X8.  Python numbers and a [float64] distribution.  [log_pdf],
    [log_cdf] and [pdf] convert their argument without asking for an element
    type, so Python numbers become [float32] and are refused with
    [TypeMismatchError] by a distribution of type [float64]; [cdf] multiplies
    [beta] by the argument as it is, the numbers take the type of [beta], and
    the call evaluates. *)
Theorem python_numbers_on_float64 :
  forall (T : Type) (K : Kernels T) (self : gamma.Gamma) (vx : list T)
         (g : graph T) (va vb : list T) (n : nat),
    gamma.constructed self ->
    gamma.dtype self = float64 ->
    control_stack g = [] ->
    run (gamma.alpha self) = Ok va ->
    run (gamma.beta self) = Ok vb ->
    bshape (bmax (length va) (length vb)) (length vx) = Some n ->
    outcome (gamma.log_pdf self (PyFloats vx)) g = Raise TypeMismatchError /\
    outcome (gamma.log_cdf self (PyFloats vx)) g = Raise TypeMismatchError /\
    outcome (gamma.pdf self (PyFloats vx)) g = Raise TypeMismatchError /\
    exists r,
      outcome (gamma.cdf self (PyFloats vx)) g = Ok r /\
      length r = n /\
      forall i ea eb ex,
        bnth va i = Some ea -> bnth vb i = Some eb -> bnth vx i = Some ex ->
        bnth r i = Some (k_igamma ea (k_mul eb ex)).
Proof.
  intros T K self vx g va vb n C D H Ra Rb B.
  assert (N : arg_dtype (PyFloats vx) <> gamma.dtype self)
    by (rewrite D; simpl; discriminate).
  repeat split.
  - unfold outcome. now rewrite log_pdf_mismatch.
  - unfold outcome. now rewrite log_cdf_mismatch.
  - rewrite (pdf_outcome self (PyFloats vx) g H).
    unfold outcome. now rewrite log_pdf_mismatch.
  - exact (cdf_outcome self (PyFloats vx) g va vb vx n C H Ra Rb
             eq_refl eq_refl B).
Qed.

Lemma python_numbers_on_float64_witness :
  exists self r,
    gamma.dtype self = float64 /\
    outcome (gamma.log_pdf self (PyFloats [1%R])) new_graph
      = Raise TypeMismatchError /\
    outcome (gamma.cdf self (PyFloats [1%R])) new_graph = Ok r /\
    length r = 1.
Proof.
  destruct (init_ok (Tensor (Const [] float64 [3%R]))
              (Tensor (Const [] float64 [2%R])) "Gamma"%string new_graph
              [3%R] [2%R] 1 eq_refl eq_refl eq_refl eq_refl eq_refl)
    as (self & g' & E).
  destruct (init_inv (Tensor (Const [] float64 [3%R]))
              (Tensor (Const [] float64 [2%R])) "Gamma"%string new_graph
              g' self eq_refl E)
    as (_ & _ & Da & _ & Ra & Rb & _).
  assert (C : gamma.constructed self).
  { exists (Tensor (Const [] float64 [3%R])),
      (Tensor (Const [] float64 [2%R])), "Gamma"%string, new_graph, g'.
    now split. }
  destruct (python_numbers_on_float64 R real self [1%R] new_graph
              [3%R] [2%R] 1 C Da eq_refl Ra Rb eq_refl)
    as (Lp & _ & _ & r & Rc & Lr & _).
  exists self, r. repeat split; assumption.
Defined.

(** ** An argument whose shape does not broadcast *)

Section ShapeFailures.
Context {T : Type} {K : Kernels T}.

Lemma log_cdf_shape_error (self : gamma.Gamma) (x : arg T) (g : graph T)
    (la lb lx : nat) :
  control_stack g = [] ->
  dtype_of (gamma._alpha self) = dtype_of (gamma._beta self) ->
  arg_dtype x = gamma.dtype self ->
  get_shape (gamma._alpha self) = Some la ->
  get_shape (gamma._beta self) = Some lb ->
  get_shape (arg_tensor float32 x) = Some lx ->
  bshape la lb = Some (bmax la lb) ->
  bshape (bmax la lb) lx = None ->
  gamma.log_cdf self x g = Raise ShapeError.
Proof.
  intros H D Dx Sa Sb Sx B1 B2.
  set (xt := arg_tensor float32 x).
  unfold gamma.log_cdf, ops.op_scope, ops.name_scope.
  destruct (convert_tensor x g H) as (g1 & E1 & H1). mstep E1.
  destruct (assert_positive_spec xt g1 H1) as (g2 & E2 & H2 & _). mstep E2.
  destruct (with_dependencies_spec [AssertPositive [] xt] xt g2 H2)
    as (g3 & E3 & H3). mstep E3.
  set (xg := Unary [AssertPositive [] xt] Identity xt) in *.
  assert (Dg : dtype_of xg = gamma.dtype self).
  { simpl. unfold xt. now rewrite arg_tensor_dtype. }
  assert (Dgb : dtype_of (gamma._beta self) = dtype_of xg).
  { unfold gamma.dtype in Dg. congruence. }
  mstep (same_dtype_ok xg (gamma.dtype self) g3 Dg).
  destruct (bshape_some_or_none lb lx) as [B|B].
  - destruct (operator_build Mul (gamma._beta self) xg lb lx (bmax lb lx) g3)
      as (g4 & E4 & H4 & _ & S4); [side .. |].
    mstep E4. apply bind_raise. unfold math_ops.igamma.
    apply (binary_shape_error Igamma _ _ la (bmax lb lx)); auto.
    bshape_cases.
  - apply bind_raise.
    now apply (operator_shape_error Mul _ _ lb lx).
Qed.

Lemma cdf_shape_error (self : gamma.Gamma) (x : arg T) (g : graph T)
    (la lb lx : nat) :
  control_stack g = [] ->
  dtype_of (gamma._alpha self) = dtype_of (gamma._beta self) ->
  arg_fits x (gamma.dtype self) = true ->
  get_shape (gamma._alpha self) = Some la ->
  get_shape (gamma._beta self) = Some lb ->
  get_shape (arg_tensor (gamma.dtype self) x) = Some lx ->
  bshape la lb = Some (bmax la lb) ->
  bshape (bmax la lb) lx = None ->
  gamma.cdf self x g = Raise ShapeError.
Proof.
  unfold gamma.dtype. intros H D F Sa Sb Sx B1 B2.
  unfold gamma.cdf, ops.op_scope, ops.name_scope.
  rewrite D in F, Sx.
  destruct (bshape_some_or_none lb lx) as [B|B].
  - destruct (operator_arg_build Mul (gamma._beta self) x lb lx
                (bmax lb lx) g) as (g1 & E1 & H1 & S1); [side .. |].
    mstep E1. unfold math_ops.igamma.
    apply (binary_shape_error Igamma _ _ la (bmax lb lx)); auto.
    bshape_cases.
  - apply bind_raise. unfold math_ops.operator.
    destruct (convert_to_tensor_as x (dtype_of (gamma._beta self)) g H F)
      as (g1 & E1 & H1 & D1).
    mstep E1.
    now apply (binary_shape_error Mul _ _ lb lx).
Qed.

Lemma log_pdf_shape_error (self : gamma.Gamma) (x : arg T) (g : graph T)
    (la lb lx : nat) :
  control_stack g = [] ->
  dtype_of (gamma._alpha self) = dtype_of (gamma._beta self) ->
  arg_dtype x = gamma.dtype self ->
  get_shape (gamma._alpha self) = Some la ->
  get_shape (gamma._beta self) = Some lb ->
  get_shape (arg_tensor float32 x) = Some lx ->
  bshape la lb = Some (bmax la lb) ->
  bshape (bmax la lb) lx = None ->
  gamma.log_pdf self x g = Raise ShapeError.
Proof.
  intros H D Dx Sa Sb Sx B1 B2.
  set (a := gamma._alpha self) in *.
  set (b := gamma._beta self) in *.
  set (xt := arg_tensor float32 x) in *.
  unfold gamma.log_pdf, ops.op_scope, ops.name_scope.
  cbv zeta. fold a b.
  destruct (convert_tensor x g H) as (g1 & E1 & H1). mstep E1.
  destruct (assert_positive_spec xt g1 H1) as (g2 & E2 & H2 & _). mstep E2.
  destruct (with_dependencies_spec [AssertPositive [] xt] xt g2 H2)
    as (g3 & E3 & H3). mstep E3.
  set (xg := Unary [AssertPositive [] xt] Identity xt) in *.
  assert (Dg : dtype_of xg = gamma.dtype self).
  { simpl. unfold xt. now rewrite arg_tensor_dtype. }
  assert (Dga : dtype_of xg = dtype_of a) by exact Dg.
  assert (Dgb : dtype_of b = dtype_of xg) by (rewrite Dga; now symmetry).
  assert (Dgt : dtype_of a = dtype_of xt) by (symmetry; exact Dga).
  mstep (same_dtype_ok xg (gamma.dtype self) g3 Dg).
  destruct (unary_spec Log b g3 H3) as (g4 & E4 & H4 & _).
  unfold math_ops.log at 1. mstep E4.
  destruct (operator_build Mul a (Unary [] Log b) la lb (bmax la lb) g4)
    as (g5 & E5 & H5 & _ & S5); [side .. |].
  mstep E5.
  destruct (operator_py_build Sub a [k_one] la la g5 H5 Sa (bshape_one_r la))
    as (g6 & E6 & H6 & S6).
  mstep E6.
  destruct (unary_spec Log xg g6 H6) as (g7 & E7 & H7 & _).
  unfold math_ops.log at 1. mstep E7.
  destruct (bshape_some_or_none la lx) as [Bx|Bx];
    [|apply bind_raise;
      now apply (operator_shape_error Mul _ _ la lx)].
  destruct (operator_build Mul
              (Binary [] Sub a (Const [] (dtype_of a) [k_one]))
              (Unary [] Log xg) la lx (bmax la lx) g7)
    as (g8 & E8 & H8 & _ & S8); [side .. |].
  mstep E8.
  destruct (bshape_some_or_none (bmax la lb) (bmax la lx)) as [By|By];
    [|apply bind_raise;
      now apply (operator_shape_error Add _ _ (bmax la lb) (bmax la lx))].
  match type of E5 with _ = Ok (?t1, _) =>
  match type of E8 with _ = Ok (?t2, _) =>
    destruct (operator_build Add t1 t2 (bmax la lb) (bmax la lx)
                (bmax (bmax la lb) (bmax la lx)) g8)
      as (g9 & E9 & H9 & _ & S9); [side .. |]
  end end.
  mstep E9.
  apply bind_raise.
  apply (operator_shape_error Mul _ _ lb lx); auto.
  bshape_cases.
Qed.

End ShapeFailures.

(** X9.  An argument that does not broadcast is refused while the graph is
    built.  For a distribution object and an argument of its element type
    whose shape does not broadcast against the batch shape, [log_pdf], [pdf],
    [log_cdf] and [cdf] all fail with [ShapeError], whatever the sign of the
    elements of the argument: no positivity assertion is evaluated. *)
Theorem shape_mismatch_raises :
  forall (T : Type) (K : Kernels T) (self : gamma.Gamma) (x : arg T)
         (g : graph T) (va vb vx : list T),
    gamma.constructed self ->
    control_stack g = [] ->
    run (gamma.alpha self) = Ok va ->
    run (gamma.beta self) = Ok vb ->
    arg_value x = Ok vx ->
    arg_dtype x = gamma.dtype self ->
    bshape (bmax (length va) (length vb)) (length vx) = None ->
    outcome (gamma.log_pdf self x) g = Raise ShapeError /\
    outcome (gamma.pdf self x) g = Raise ShapeError /\
    outcome (gamma.log_cdf self x) g = Raise ShapeError /\
    outcome (gamma.cdf self x) g = Raise ShapeError.
Proof.
  intros T K self x g va vb vx C H Ra Rb Vx Dx B.
  unfold gamma.alpha, gamma.beta in Ra, Rb.
  destruct (constructed_inv self C) as (D & _ & _ & Hs & _).
  pose proof (Hs va vb Ra Rb) as B1.
  pose proof (log_pdf_shape_error self x g _ _ _ H D Dx
                (run_shape _ _ Ra) (run_shape _ _ Rb)
                (arg_tensor_shape float32 x vx Vx) B1 B) as Ep.
  repeat split.
  - unfold outcome. now rewrite Ep.
  - rewrite (pdf_outcome self x g H). unfold outcome. now rewrite Ep.
  - unfold outcome.
    now rewrite (log_cdf_shape_error self x g _ _ _ H D Dx
                   (run_shape _ _ Ra) (run_shape _ _ Rb)
                   (arg_tensor_shape float32 x vx Vx) B1 B).
  - unfold outcome.
    now rewrite (cdf_shape_error self x g _ _ _ H D (arg_dtype_fits x _ Dx)
                   (run_shape _ _ Ra) (run_shape _ _ Rb)
                   (arg_tensor_shape (gamma.dtype self) x vx Vx) B1 B).
Qed.

Lemma shape_mismatch_raises_witness :
  exists self,
    gamma.constructed self /\
    outcome (gamma.log_pdf self (PyFloats [(-1)%R; 1%R; 2%R])) new_graph
      = Raise ShapeError /\
    outcome (gamma.cdf self (PyFloats [(-1)%R; 1%R; 2%R])) new_graph
      = Raise ShapeError.
Proof.
  destruct (gamma_of_floats [3%R; 4%R] [2%R] "Gamma"%string 2 eq_refl)
    as (self & g' & E & C & H & Ra & Rb & D & _).
  destruct (shape_mismatch_raises R real self
              (PyFloats [(-1)%R; 1%R; 2%R]) new_graph
              [3%R; 4%R] [2%R] [(-1)%R; 1%R; 2%R]
              C eq_refl Ra Rb eq_refl (eq_sym D) eq_refl)
    as (Lp & _ & _ & Cd).
  exists self. repeat split; assumption.
Defined.

(** ** The element type of what the methods return *)

Section ResultTypes.
Context {T : Type} {K : Kernels T}.

Lemma bind_inv {A B} (m : M T A) (k : A -> M T B) (g g' : graph T) (b : B) :
  bind m k g = Ok (b, g') ->
  exists a g1, m g = Ok (a, g1) /\ k a g1 = Ok (b, g').
Proof.
  unfold bind. destruct (m g) as [[a g1]|e]; [eauto | discriminate].
Qed.

Lemma unary_dtype (f : unop) (a t : tensor T) (g g' : graph T) :
  math_ops.unary f a g = Ok (t, g') -> dtype_of t = dtype_of a.
Proof. unfold math_ops.unary, create_op. now intros [= <- _]. Qed.

Lemma binary_dtype (f : binop) (a b t : tensor T) (g g' : graph T) :
  math_ops.binary f a b g = Ok (t, g') -> dtype_of t = dtype_of a.
Proof.
  unfold math_ops.binary, create_op, raise.
  destruct (dtype_eqb _ _); [|discriminate].
  destruct (get_shape a), (get_shape b); try (now intros [= <- _]).
  destruct (bshape _ _); [now intros [= <- _] | discriminate].
Qed.

Lemma operator_dtype (f : binop) (a : tensor T) (y : arg T) (t : tensor T)
    (g g' : graph T) :
  math_ops.operator f a y g = Ok (t, g') -> dtype_of t = dtype_of a.
Proof.
  intros E. apply bind_inv in E. destruct E as (y' & g1 & _ & E).
  now apply binary_dtype in E.
Qed.

Lemma convert_dtype (x : arg T) (d : dtype) (t : tensor T) (g g' : graph T) :
  ops.convert_to_tensor x (Some d) g = Ok (t, g') -> dtype_of t = d.
Proof.
  destruct x as [v|t0]; simpl.
  - unfold create_op. now intros [= <- _].
  - destruct (dtype_eqb d (dtype_of t0)) eqn:D; [|discriminate].
    apply dtype_eqb_eq in D. unfold ret. now intros [= <- _].
Qed.

Lemma roperator_dtype (f : binop) (x : arg T) (b t : tensor T)
    (g g' : graph T) :
  math_ops.roperator f x b g = Ok (t, g') -> dtype_of t = dtype_of b.
Proof.
  intros E. apply bind_inv in E. destruct E as (x' & g1 & Ex & E).
  apply binary_dtype in E. apply convert_dtype in Ex. congruence.
Qed.

Lemma log_pdf_dtype (self : gamma.Gamma) (x : arg T) (t : tensor T)
    (g g' : graph T) :
  gamma.log_pdf self x g = Ok (t, g') -> dtype_of t = gamma.dtype self.
Proof.
  unfold gamma.log_pdf, ops.op_scope, ops.name_scope. cbv zeta.
  intros E.
  repeat match type of E with
    | bind _ _ _ = Ok _ =>
        apply bind_inv in E;
        let a := fresh "a" in let g1 := fresh "g" in let E0 := fresh "E" in
        destruct E as (a & g1 & E0 & E)
    end.
  repeat match goal with
    | H : math_ops.operator _ _ _ _ = Ok _ |- _ => apply operator_dtype in H
    end.
  unfold gamma.dtype. congruence.
Qed.

Lemma log_cdf_dtype (self : gamma.Gamma) (x : arg T) (t : tensor T)
    (g g' : graph T) :
  gamma.log_cdf self x g = Ok (t, g') -> dtype_of t = gamma.dtype self.
Proof.
  unfold gamma.log_cdf, ops.op_scope, ops.name_scope.
  intros E.
  repeat match type of E with
    | bind _ _ _ = Ok _ =>
        apply bind_inv in E;
        let a := fresh "a" in let g1 := fresh "g" in let E0 := fresh "E" in
        destruct E as (a & g1 & E0 & E)
    end.
  apply unary_dtype in E.
  repeat match goal with
    | H : math_ops.igamma _ _ _ = Ok _ |- _ => apply binary_dtype in H
    end.
  unfold gamma.dtype. congruence.
Qed.

End ResultTypes.

(** X10.  Whatever a method returns has the element type of the
    distribution.  Whenever [log_pdf], [pdf], [log_cdf], [cdf] or [entropy]
    returns a tensor, from any graph and for any argument, that tensor has
    element type [dtype]; and so have [mean] and [variance] of a
    distribution object. *)
Theorem results_have_dtype :
  forall (T : Type) (K : Kernels T) (self : gamma.Gamma) (x : arg T)
         (g g' : graph T) (t : tensor T),
    (gamma.log_pdf self x g = Ok (t, g') -> dtype_of t = gamma.dtype self) /\
    (gamma.pdf self x g = Ok (t, g') -> dtype_of t = gamma.dtype self) /\
    (gamma.log_cdf self x g = Ok (t, g') -> dtype_of t = gamma.dtype self) /\
    (gamma.cdf self x g = Ok (t, g') -> dtype_of t = gamma.dtype self) /\
    (gamma.entropy self g = Ok (t, g') -> dtype_of t = gamma.dtype self) /\
    (gamma.constructed self ->
     dtype_of (gamma.mean self) = gamma.dtype self /\
     dtype_of (gamma.variance self) = gamma.dtype self).
Proof.
  intros T K self x g g' t.
  split; [apply log_pdf_dtype|].
  split.
  { rewrite pdf_unfold.
    destruct (gamma.log_pdf self x g) as [[l g1]|e] eqn:E; [|discriminate].
    intros [= <- _]. simpl. now apply log_pdf_dtype in E. }
  split; [apply log_cdf_dtype|].
  split.
  { unfold gamma.cdf, ops.op_scope, ops.name_scope. intros E.
    apply bind_inv in E. destruct E as (bx & g1 & _ & E).
    apply binary_dtype in E. exact E. }
  split.
  { unfold gamma.entropy, ops.op_scope, ops.name_scope. cbv zeta.
    intros E.
    repeat match type of E with
      | bind _ _ _ = Ok _ =>
          apply bind_inv in E;
          let a := fresh "a" in let g1 := fresh "g" in let E0 := fresh "E" in
          destruct E as (a & g1 & E0 & E)
      end.
    repeat match goal with
      | H : math_ops.operator _ _ _ _ = Ok _ |- _ =>
          apply operator_dtype in H
      end.
    unfold gamma.dtype. congruence. }
  intros C. destruct (constructed_inv self C) as (_ & Hm & Hv & _).
  unfold gamma.mean, gamma.variance, gamma.dtype. rewrite Hm, Hv.
  split; reflexivity.
Qed.

Lemma results_have_dtype_witness :
  exists self t g',
    gamma.entropy self new_graph = Ok (t, g') /\
    dtype_of t = gamma.dtype self /\
    dtype_of (gamma.mean self) = gamma.dtype self.
Proof.
  destruct (gamma_of_floats [3%R] [2%R] "Gamma"%string 1 eq_refl)
    as (self & g0 & E & C & H & Ra & Rb & D & A & B & _).
  pose proof (entropy_built self new_graph 1 1 eq_refl) as P.
  cbv zeta in P.
  destruct P as (g' & Ee & _).
  - unfold gamma.dtype in D. rewrite A, B. reflexivity.
  - now rewrite A.
  - now rewrite B.
  - reflexivity.
  - match type of Ee with
    | _ = Ok (?t, _) =>
        exists self, t, g'; split; [exact Ee|];
        destruct (results_have_dtype R real self (PyFloats [1%R]) new_graph
                    g' t) as (_ & _ & _ & _ & He & Hm)
    end.
    split; [exact (He Ee) | exact (proj1 (Hm C))].
Defined.

(** X11.  One distribution, many observations.  For a distribution object
    with scalar parameters [a] and [b] and an argument of its element type
    with any number of elements, all positive, [log_pdf] evaluates to the
    list of [a * log b + (a - 1) * log x - b * x - lgamma a] over the
    elements [x] of the argument, in order, and [cdf] to the list of
    [igamma a (b * x)]; on an argument without elements both results are
    empty. *)
Theorem scalar_parameters_map :
  forall (T : Type) (K : Kernels T) (self : gamma.Gamma) (x : arg T)
         (g : graph T) (a b : T) (vx : list T),
    gamma.constructed self ->
    control_stack g = [] ->
    run (gamma.alpha self) = Ok [a] ->
    run (gamma.beta self) = Ok [b] ->
    arg_value x = Ok vx ->
    arg_dtype x = gamma.dtype self ->
    forallb (k_less k_zero) vx = true ->
    outcome (gamma.log_pdf self x) g =
      Ok (map (fun ex =>
                 k_sub
                   (k_sub
                      (k_add (k_mul a (k_log b))
                             (k_mul (k_sub a k_one) (k_log ex)))
                      (k_mul b ex))
                   (k_lgamma a)) vx) /\
    outcome (gamma.cdf self x) g =
      Ok (map (fun ex => k_igamma a (k_mul b ex)) vx).
Proof.
  intros T K self x g a b vx C H Ra Rb Vx Dx Pos. split.
  - destruct (log_pdf_outcome self x g [a] [b] vx (length vx)
                C H Ra Rb Vx Dx eq_refl) as (P & _).
    destruct (P Pos) as (r & Rr & Lr & Pr).
    rewrite Rr. f_equal.
    apply map_of_bnth; [exact Lr|].
    intros i ex Hx. now apply Pr.
  - destruct (cdf_outcome self x g [a] [b] vx (length vx)
                C H Ra Rb Vx (arg_dtype_fits x _ Dx) eq_refl)
      as (r & Rr & Lr & Pr).
    rewrite Rr. f_equal.
    apply map_of_bnth; [exact Lr|].
    intros i ex Hx. now apply Pr.
Qed.

Lemma scalar_parameters_map_witness :
  exists self,
    gamma.constructed self /\
    outcome (gamma.cdf self (PyFloats [1%R; 2%R; 5%R])) new_graph =
      Ok [Rigamma 3 (2 * 1); Rigamma 3 (2 * 2); Rigamma 3 (2 * 5)] /\
    outcome (gamma.log_pdf self (PyFloats [])) new_graph = Ok [].
Proof.
  destruct (gamma_of_floats [3%R] [2%R] "Gamma"%string 1 eq_refl)
    as (self & g' & E & C & H & Ra & Rb & D & _).
  assert (Pos : forallb (Rless 0) [1%R; 2%R; 5%R] = true).
  { simpl. rewrite !RealFacts.Rless_true by lra. reflexivity. }
  exists self. repeat split.
  - exact C.
  - exact (proj2 (scalar_parameters_map R real self
                    (PyFloats [1%R; 2%R; 5%R]) new_graph 3%R 2%R
                    [1%R; 2%R; 5%R] C eq_refl Ra Rb eq_refl (eq_sym D) Pos)).
  - exact (proj1 (scalar_parameters_map R real self (PyFloats [])
                    new_graph 3%R 2%R [] C eq_refl Ra Rb eq_refl (eq_sym D)
                    eq_refl)).
Defined.
